(** * chain: ordered composition of context-aware HTTP handler wraps

    A shallow embedding of [chain.go] (package [chain]) and the proofs of
    the properties its specification states.

    Layout of the development:
    - [context]: the part of [golang.org/x/net/context] the package uses
      (value-carrying contexts and keyed lookup);
    - a state-and-panic monad [M] in which Go code with side effects runs;
    - Go slices over a store of backing arrays, with the built-in [append];
    - the package itself: [Handler], [HandlerFunc], [Chain], [New],
      [Chain_Append], [Chain_End], [Chain_EndFn], [Bridge], [InitPHFC],
      [GetPHFC];
    - the theorems. *)

From stdpp Require Import gmap list strings.

Set Default Proof Using "Type".

(** ** Heap locations *)

Definition loc := nat.

(** ** Contexts ([golang.org/x/net/context])

    A context is an immutable chain of derivations.  Keys and values are
    Go interface values: a key carries its dynamic type, so a key of the
    package-private type [ctxKey] is never equal to a key of another
    package. *)

Module context.

(** [type ctxKey int] of [chain.go], and keys of any other type. *)
Inductive ifaceKey : Type :=
| ctxKey (n : Z)
| foreignKey (id : nat).

(** The values a context may carry: the nil interface, a
    [*context.Context] (possibly a nil pointer), or a value of some
    other dynamic type. *)
Inductive ifaceVal : Type :=
| nilVal
| ctxPtr (p : option loc)
| foreignVal (v : nat).

Inductive Context : Type :=
| Background
| WithValue (parent : Context) (key : ifaceKey) (val : ifaceVal)
| WithCancel (parent : Context) (id : nat).

#[global] Instance ifaceKey_eq_dec : EqDecision ifaceKey.
Proof. solve_decision. Defined.

(** [ctx.Value(key)]: the innermost binding of [key] on the derivation
    chain, the nil interface when there is none. *)
Fixpoint Value (ctx : Context) (key : ifaceKey) : ifaceVal :=
  match ctx with
  | Background => nilVal
  | WithValue parent k v => if decide (k = key) then v else Value parent key
  | WithCancel parent _ => Value parent key
  end.

(** [key] is bound somewhere on the derivation chain of [ctx]. *)
Fixpoint binds (ctx : Context) (key : ifaceKey) : bool :=
  match ctx with
  | Background => false
  | WithValue parent k _ => if decide (k = key) then true else binds parent key
  | WithCancel parent _ => binds parent key
  end.

(** Number of derivation steps of a context. *)
Fixpoint depth (ctx : Context) : nat :=
  match ctx with
  | Background => 0
  | WithValue parent _ _ => S (depth parent)
  | WithCancel parent _ => S (depth parent)
  end.

End context.

Import context.

(** ** The post-handler-func context slot *)

(** [const postHandlerFuncCtxKey ctxKey = 0] *)
Definition postHandlerFuncCtxKey : ifaceKey := ctxKey 0.

(** The cells that [*context.Context] pointers refer to. *)
Abbreviation ctxStore := (gmap loc Context).

(** [InitPHFC]: [&ctx] is the address of the parameter variable, a fresh
    cell that holds the argument; the result is
    [context.WithValue(ctx, postHandlerFuncCtxKey, &ctx)]. *)
Definition InitPHFC (ctx : Context) (mu : ctxStore) : Context * ctxStore :=
  let p := fresh (dom mu) in
  (WithValue ctx postHandlerFuncCtxKey (ctxPtr (Some p)), <[p := ctx]> mu).

(** [GetPHFC]: the comma-ok type assertion of
    [ctx.Value(postHandlerFuncCtxKey)] to the pointer type
    [*context.Context]. *)
Definition GetPHFC (ctx : Context) : option loc * bool :=
  match Value ctx postHandlerFuncCtxKey with
  | ctxPtr p => (p, true)
  | _ => (None, false)
  end.

(** Dereference of a [*context.Context]. *)
Definition deref (mu : ctxStore) (p : option loc) : option Context :=
  match p with
  | Some l => mu !! l
  | None => None
  end.

(** What callers do with a context after InitPHFC: derive children from
    it, by [context.WithValue] or by a cancellation derivation. *)
Inductive derivation : Type :=
| withValue (key : ifaceKey) (val : ifaceVal)
| withCancel (id : nat).

Definition derive1 (c : Context) (d : derivation) : Context :=
  match d with
  | withValue k v => WithValue c k v
  | withCancel id => WithCancel c id
  end.

(** The context reached from [c] by the derivations [ds], first to last. *)
Definition derive (c : Context) (ds : list derivation) : Context :=
  foldl derive1 c ds.

(** The derivation binds the key [key]. *)
Definition rebinds (key : ifaceKey) (d : derivation) : bool :=
  match d with
  | withValue k _ => bool_decide (k = key)
  | withCancel _ => false
  end.

(** ** Effects: a state monad with panics

    A Go function with side effects is a function from the state it runs
    in to an outcome and the state it leaves.  The outcome [None] is a
    run-time panic (a call through a nil func or a nil interface, an index
    out of range); a panic ends the computation and keeps the effects
    performed so far. *)

Definition M (S A : Type) : Type := S -> option A * S.

Definition ret {S A : Type} (a : A) : M S A := fun s => (Some a, s).

Definition panic {S A : Type} : M S A := fun s => (None, s).

Definition bind {S A B : Type} (c : M S A) (k : A -> M S B) : M S B :=
  fun s =>
    match c s with
    | (Some a, s') => k a s'
    | (None, s') => (None, s')
    end.

Declare Scope go_scope.
Delimit Scope go_scope with go.
Notation "x <- c ;; k" := (bind c (fun x => k))
  (at level 100, c at next level, right associativity) : go_scope.
Notation "c ;; k" := (bind c (fun _ => k))
  (at level 100, right associativity) : go_scope.
Open Scope go_scope.

(** Run the computations of a list one after the other. *)
Fixpoint sequence_ {S : Type} (cs : list (M S unit)) : M S unit :=
  match cs with
  | [] => ret tt
  | c :: cs' => c ;; sequence_ cs'
  end.

(** Two computations that behave alike in every state. *)
Definition meq {S A : Type} (c1 c2 : M S A) : Prop := forall s, c1 s = c2 s.
Infix "=m=" := meq (at level 70, no associativity) : go_scope.

(** ** Go slices *)

(** A slice header: the backing array, the offset of the first element
    in it, the length and the capacity.  The nil slice has length and
    capacity 0. *)
Record slice : Type := Slice {
  sl_arr : loc;
  sl_off : nat;
  sl_len : nat;
  sl_cap : nat
}.

Definition nil_slice : slice := Slice 0 0 0 0.

(** The elements of a slice, read from the store of backing arrays. *)
Definition elems {A : Type} (hp : gmap loc (list A)) (s : slice) : list A :=
  take (sl_len s) (drop (sl_off s) (default [] (hp !! sl_arr s))).

(** A slice is backed: its window of [sl_cap] cells lies within an array
    of the store (a slice of capacity 0, such as the nil slice, needs no
    array). *)
Definition slice_ok {A : Type} (hp : gmap loc (list A)) (s : slice) : Prop :=
  sl_len s <= sl_cap s /\
  (0 < sl_cap s ->
   exists a, hp !! sl_arr s = Some a /\ sl_off s + sl_cap s <= length a).

(** ** The package *)

Section chain.

(** [http.ResponseWriter], [*http.Request], and the state handlers and
    wraps act on (response writers, logs, ...). *)
Variables (ResponseWriter Request World : Type).

(** The capacity the runtime picks when [append] has to grow a slice
    of capacity [old] to hold [needed] elements. *)
Variable growslice : nat -> nat -> nat.

(** The signature [func(context.Context, http.ResponseWriter, *http.Request)]. *)
Definition serveCtxFn : Type :=
  Context -> ResponseWriter -> Request -> M World unit.

(** The signature [func(http.ResponseWriter, *http.Request)]. *)
Definition serveFn : Type := ResponseWriter -> Request -> M World unit.

(** [type Handler interface { ServeHTTPContext(...) }]: an interface
    value is nil or holds a dynamic value, seen through its method. *)
Definition Handler : Type := option serveCtxFn.

(** Method call [h.ServeHTTPContext(c, w, r)] on an interface value. *)
Definition ServeHTTPContext (h : Handler) : serveCtxFn :=
  fun c w r =>
    match h with
    | Some f => f c w r
    | None => panic
    end.

(** [type HandlerFunc func(...)]: a func value, possibly nil. *)
Definition HandlerFunc : Type := option serveCtxFn.

(** [func (h HandlerFunc) ServeHTTPContext(c, w, r) { h(c, w, r) }] *)
Definition HandlerFunc_ServeHTTPContext (h : HandlerFunc) : serveCtxFn :=
  fun c w r =>
    match h with
    | Some f => f c w r
    | None => panic
    end.

(** Conversion of a [HandlerFunc] to the interface [Handler]: the
    interface value is never nil, also when the func is. *)
Definition asHandler (h : HandlerFunc) : Handler :=
  Some (HandlerFunc_ServeHTTPContext h).

(** [http.Handler], an interface with the method [ServeHTTP]. *)
Definition httpHandler : Type := option serveFn.

Definition ServeHTTP (h : httpHandler) : serveFn :=
  fun w r =>
    match h with
    | Some f => f w r
    | None => panic
    end.

(** [type handlerAdapter struct { ctx context.Context; h Handler }] *)
Record handlerAdapter : Type := {
  ha_ctx : Context;
  ha_h : Handler
}.

(** [func (ha handlerAdapter) ServeHTTP(w, r)] *)
Definition handlerAdapter_ServeHTTP (ha : handlerAdapter) : serveFn :=
  fun w r => ServeHTTPContext (ha_h ha) (ha_ctx ha) w r.

(** A wrap [func(Handler) Handler] and a wrap of the host framework
    [func(http.Handler) http.Handler].  A nil func is the function that
    panics when called. *)
Definition Wrap : Type := Handler -> M World Handler.
Definition httpWrap : Type := httpHandler -> M World httpHandler.

Definition nilWrap : Wrap := fun _ => panic.

(** [type noCtxHandlerAdapter struct { handlerAdapter; mw func(http.Handler) http.Handler }] *)
Record noCtxHandlerAdapter : Type := {
  nc_handlerAdapter : handlerAdapter;
  nc_mw : httpWrap
}.

(** The method [ServeHTTP] promoted from the embedded [handlerAdapter]. *)
Definition noCtxHandlerAdapter_ServeHTTP (x : noCtxHandlerAdapter) : serveFn :=
  handlerAdapter_ServeHTTP (nc_handlerAdapter x).

(** *** The Go state: backing arrays of wrap slices, and the world *)

Record GoState : Type := {
  heap : gmap loc (list Wrap);
  world : World
}.

Definition get_heap : M GoState (gmap loc (list Wrap)) :=
  fun st => (Some (heap st), st).

Definition set_heap (hp : gmap loc (list Wrap)) : M GoState unit :=
  fun st => (Some tt, {| heap := hp; world := world st |}).

(** Handlers and wraps act on the world only. *)
Definition lift_world {A : Type} (c : M World A) : M GoState A :=
  fun st =>
    let (r, w') := c (world st) in
    (r, {| heap := heap st; world := w' |}).

(** [s[i]], with its bounds check. *)
Definition index (s : slice) (i : nat) : M GoState Wrap :=
  hp <- get_heap ;;
  if decide (i < sl_len s) then
    match hp !! sl_arr s ≫= (fun a => a !! (sl_off s + i)) with
    | Some w => ret w
    | None => panic
    end
  else panic.

(** The slice a call site builds for explicit variadic arguments: nil
    for none, else a fresh array exactly as long as the arguments. *)
Definition variadic (xs : list Wrap) : M GoState slice :=
  match xs with
  | [] => ret nil_slice
  | _ =>
      hp <- get_heap ;;
      let l := fresh (dom hp) in
      set_heap (<[l := xs]> hp) ;;
      ret (Slice l 0 (length xs) (length xs))
  end.

(** [make([]func(Handler) Handler, len, cap)] followed by the
    assignment of the first [len] elements. *)
Definition make_slice (xs : list Wrap) (cap : nat) : M GoState slice :=
  hp <- get_heap ;;
  let l := fresh (dom hp) in
  set_heap (<[l := xs ++ replicate (cap - length xs) nilWrap]> hp) ;;
  ret (Slice l 0 (length xs) (Nat.max cap (length xs))).

(** The built-in [append(s, xs...)]: when the capacity suffices the
    new elements are written into the backing array of [s], after its
    last element; else a new array is allocated, of a capacity the
    runtime picks (at least the new length), and receives the
    elements of [s] followed by the new ones. *)
Definition go_append (s : slice) (xs : list Wrap) : M GoState slice :=
  hp <- get_heap ;;
  let n := sl_len s + length xs in
  if decide (n <= sl_cap s) then
    set_heap (alter (list_inserts (sl_off s + sl_len s) xs) (sl_arr s) hp) ;;
    ret (Slice (sl_arr s) (sl_off s) n (sl_cap s))
  else
    let l := fresh (dom hp) in
    let c := Nat.max n (growslice (sl_cap s) n) in
    set_heap (<[l := elems hp s ++ xs ++ replicate (c - n) nilWrap]> hp) ;;
    ret (Slice l 0 n c).

(** *** Chain *)

(** [type Chain struct { ctx context.Context; m []func(Handler) Handler }] *)
Record Chain : Type := {
  ctx : Context;
  m : slice
}.

(** [func New(ctx context.Context, mw ...func(Handler) Handler) Chain] *)
Definition New (ctx0 : Context) (mw : slice) : Chain :=
  {| ctx := ctx0; m := mw |}.

(** [func (c Chain) Append(mw ...func(Handler) Handler) Chain]:
    [c.m = append(c.m, mw...); return c] on the receiver's copy. *)
Definition Chain_Append (c : Chain) (mw : slice) : M GoState Chain :=
  hp <- get_heap ;;
  s <- go_append (m c) (elems hp mw) ;;
  ret {| ctx := ctx c; m := s |}.

(** The loop of [End]: [for i := len(c.m) - 1; i >= 0; i-- { h = c.m[i](h) }],
    with [k = i + 1] iterations left. *)
Fixpoint End_loop (c : Chain) (k : nat) (h : Handler) : M GoState Handler :=
  match k with
  | 0 => ret h
  | S i =>
      w <- index (m c) i ;;
      h' <- lift_world (w h) ;;
      End_loop c i h'
  end.

(** [func (c Chain) End(h Handler) http.Handler] *)
Definition Chain_End (c : Chain) (h : Handler) : M GoState httpHandler :=
  match h with
  | None => ret None
  | Some _ =>
      h' <- End_loop c (sl_len (m c)) h ;;
      let f := {| ha_ctx := ctx c; ha_h := h' |} in
      ret (Some (handlerAdapter_ServeHTTP f))
  end.

(** [func (c Chain) EndFn(h HandlerFunc) http.Handler] *)
Definition Chain_EndFn (c : Chain) (h : HandlerFunc) : M GoState httpHandler :=
  match h with
  | None => Chain_End c None
  | Some _ => Chain_End c (asHandler h)
  end.

(** [func Bridge(h func(http.Handler) http.Handler) func(Handler) Handler] *)
Definition Bridge (h : httpWrap) : Wrap :=
  fun n =>
    ret (asHandler (Some (fun ctx0 w r =>
      let x := {| nc_mw := h;
                  nc_handlerAdapter := {| ha_ctx := ctx0; ha_h := n |} |} in
      p <- h (Some (noCtxHandlerAdapter_ServeHTTP x)) ;;
      ServeHTTP p w r))).

End chain.

Arguments ServeHTTPContext {ResponseWriter Request World} h c w r.
Arguments HandlerFunc_ServeHTTPContext {ResponseWriter Request World} h c w r.
Arguments asHandler {ResponseWriter Request World} h.
Arguments ServeHTTP {ResponseWriter Request World} h w r.
Arguments ha_ctx {ResponseWriter Request World} _.
Arguments ha_h {ResponseWriter Request World} _.
Arguments Build_handlerAdapter {ResponseWriter Request World} _ _.
Arguments handlerAdapter_ServeHTTP {ResponseWriter Request World} ha w r.
Arguments nilWrap {ResponseWriter Request World} _.
Arguments nc_handlerAdapter {ResponseWriter Request World} _.
Arguments nc_mw {ResponseWriter Request World} _.
Arguments Build_noCtxHandlerAdapter {ResponseWriter Request World} _ _.
Arguments noCtxHandlerAdapter_ServeHTTP {ResponseWriter Request World} x w r.
Arguments heap {ResponseWriter Request World} _.
Arguments world {ResponseWriter Request World} _.
Arguments Build_GoState {ResponseWriter Request World} _ _.
Arguments get_heap {ResponseWriter Request World}.
Arguments set_heap {ResponseWriter Request World} hp.
Arguments lift_world {ResponseWriter Request World A} c.
Arguments index {ResponseWriter Request World} s i.
Arguments variadic {ResponseWriter Request World} xs.
Arguments make_slice {ResponseWriter Request World} xs cap.
Arguments go_append {ResponseWriter Request World} growslice s xs.
Arguments Chain_Append {ResponseWriter Request World} growslice c mw.
Arguments End_loop {ResponseWriter Request World} c k h.
Arguments Chain_End {ResponseWriter Request World} c h.
Arguments Chain_EndFn {ResponseWriter Request World} c h.
Arguments Bridge {ResponseWriter Request World} h n.

(** ** Vocabulary of the specification *)

Section vocabulary.

Context {ResponseWriter Request World : Type}.

Local Abbreviation Handler := (Handler ResponseWriter Request World).
Local Abbreviation httpHandler := (httpHandler ResponseWriter Request World).
Local Abbreviation serveCtxFn := (serveCtxFn ResponseWriter Request World).
Local Abbreviation serveFn := (serveFn ResponseWriter Request World).
Local Abbreviation Wrap := (Wrap ResponseWriter Request World).
Local Abbreviation httpWrap := (httpWrap ResponseWriter Request World).

(** The chain [c] stores the wraps [ws], in that order, in the store
    of backing arrays [hp]. *)
Definition stores (hp : gmap loc (list Wrap)) (c : Chain) (ws : list Wrap) : Prop :=
  elems hp (m c) = ws /\ length ws = sl_len (m c).

(** The nesting [w0(w1(...wn-1(h)...))] of a list of wraps around a
    handler: the last wrap is applied first and ends up innermost, the
    first wrap is applied last and ends up outermost. *)
Fixpoint wrap_all (ws : list Wrap) (h : Handler) : M World Handler :=
  match ws with
  | [] => ret h
  | w :: ws' => h' <- wrap_all ws' h ;; w h'
  end.

(** The opposite nesting [wn-1(...w1(w0(h))...)]: the first wrap is
    applied first and ends up innermost, the last wrap outermost. *)
Fixpoint wrap_all_last_outermost (ws : list Wrap) (h : Handler) : M World Handler :=
  match ws with
  | [] => ret h
  | w :: ws' => h' <- w h ;; wrap_all_last_outermost ws' h'
  end.

(** The call [c.Append(x0, ..., xk)] with explicit arguments: the call
    site builds the variadic slice, then calls Append. *)
Definition call_Append (growslice : nat -> nat -> nat) (c : Chain)
    (xs : list Wrap) : M (GoState ResponseWriter Request World) Chain :=
  mw <- variadic xs ;;
  Chain_Append growslice c mw.

(** A wrap without effects of its own. *)
Definition pure_wrap (g : Handler -> Handler) : Wrap := fun h => ret (g h).

(** A wrap that performs [e] when it is applied, that is while End
    runs, and returns [g] of the handler it is given. *)
Definition effectful_wrap (eg : M World unit * (Handler -> Handler)) : Wrap :=
  fun h => eg.1 ;; ret (eg.2 h).

(** A wrap whose handler calls the wrapped handler with a context made
    from the one it received (a child context, for instance). *)
Definition with_context (k : Context -> Context) : Wrap :=
  fun next =>
    ret (asHandler (Some (fun c w r => ServeHTTPContext next (k c) w r))).

(** A wrap with an entry side and an exit side: the handler it returns
    performs [entry], calls the wrapped handler with the context,
    response writer and request it received, then performs [exit]. *)
Definition layer (sides : serveCtxFn * serveCtxFn) : Wrap :=
  fun next =>
    ret (asHandler (Some (fun c w r =>
      sides.1 c w r ;;
      ServeHTTPContext next c w r ;;
      sides.2 c w r))).

(** The same shape for a wrap of the host framework, which knows no
    context. *)
Definition http_layer (sides : serveFn * serveFn) : httpWrap :=
  fun next =>
    ret (Some (fun w r =>
      sides.1 w r ;;
      ServeHTTP next w r ;;
      sides.2 w r)).

(** The handler that layers with the given entry and exit sides form
    around [f], the first pair outermost. *)
Fixpoint nest_layers (sides : list (serveCtxFn * serveCtxFn)) (f : serveCtxFn)
  : serveCtxFn :=
  match sides with
  | [] => f
  | p :: sides' =>
      fun c w r => p.1 c w r ;; nest_layers sides' f c w r ;; p.2 c w r
  end.

(** What a chain of bridged wraps amounts to on the host framework's
    side, for the context [c] it is entered with: every legacy wrap
    receives the non-nil plain handler made of the layers below it, and
    the innermost plain handler is the adapter that calls [h] with the
    context [c]. *)
Fixpoint plain_serve (c : Context) (ls : list httpWrap) (h : Handler) : serveFn :=
  match ls with
  | [] => handlerAdapter_ServeHTTP {| ha_ctx := c; ha_h := h |}
  | l :: ls' =>
      fun w r => p <- l (Some (plain_serve c ls' h)) ;; ServeHTTP p w r
  end.

End vocabulary.

(** ** A concrete world: traces of events

    Response writers and requests are numbered; the world is the list of
    events performed so far. *)

Module trace.

Definition World : Type := list string.
Definition RW : Type := nat.
Definition Req : Type := nat.

Definition emit (e : string) : M World unit := fun t => (Some tt, t ++ [e]).

(** A wrap that logs around the wrapped handler. *)
Definition log_sides (name : string) : serveCtxFn RW Req World * serveCtxFn RW Req World :=
  (fun _ _ _ => emit (name +:+ "-in"), fun _ _ _ => emit (name +:+ "-out")).

Definition logging (name : string) : Wrap RW Req World :=
  layer (log_sides name).

(** The handler that [logging name] returns for [next]. *)
Definition logging_handler (name : string) (next : Handler RW Req World)
  : Handler RW Req World :=
  asHandler (Some (fun c w r =>
    (log_sides name).1 c w r ;;
    ServeHTTPContext next c w r ;;
    (log_sides name).2 c w r)).

(** A legacy wrap that logs around the wrapped plain handler. *)
Definition http_log_sides (name : string) : serveFn RW Req World * serveFn RW Req World :=
  (fun _ _ => emit (name +:+ "-in"), fun _ _ => emit (name +:+ "-out")).

Definition http_logging (name : string) : httpWrap RW Req World :=
  http_layer (http_log_sides name).

(** A terminal handler that logs the depth of the context it receives. *)
Definition terminal : serveCtxFn RW Req World :=
  fun c _ _ => emit (if decide (depth c = 0) then "h@root" else "h@derived").

Definition st0 : GoState RW Req World := {| heap := ∅; world := [] |}.

(** A chain that stores the wraps [a; b] in an array without spare
    capacity. *)
Definition st_ab : GoState RW Req World :=
  {| heap := {[ 1 := [logging "a"; logging "b"] ]}; world := [] |}.

Definition c_ab : Chain := New Background (Slice 1 0 2 2).

(** A chain with a derived context that stores two bridged legacy
    wraps. *)
Definition st_bridged : GoState RW Req World :=
  {| heap := {[ 1 := [Bridge (http_logging "x"); Bridge (http_logging "y")] ]};
     world := [] |}.

Definition c_bridged : Chain := New (WithCancel Background 1) (Slice 1 0 2 2).

(** A chain whose only wrap is a nil func. *)
Definition st_nilwrap : GoState RW Req World :=
  {| heap := {[ 1 := [nilWrap] ]}; world := [] |}.

Definition c_nilwrap : Chain := New Background (Slice 1 0 1 1).

(** A store with a chain that fills its array, a chain with one spare
    cell, and two one-element slices to append. *)
Definition st_app : GoState RW Req World :=
  {| heap := {[ 1 := [logging "a"; logging "b"];
                2 := [logging "a"; nilWrap];
                3 := [logging "x"];
                4 := [logging "y"] ]};
     world := [] |}.

Definition c_full : Chain := New Background (Slice 1 0 2 2).
Definition c_spare : Chain := New Background (Slice 2 0 1 2).
Definition mw_x : slice := Slice 3 0 1 1.
Definition mw_y : slice := Slice 4 0 1 1.

(** A wrap that logs when End applies it and returns its argument. *)
Definition announcing (name : string)
  : M World unit * (Handler RW Req World -> Handler RW Req World) :=
  (emit (name +:+ "-applied"), fun h => h).

Definition st_announce : GoState RW Req World :=
  {| heap := {[ 1 := [effectful_wrap (announcing "a");
                      effectful_wrap (announcing "b")] ]};
     world := [] |}.

(** A chain whose first wrap replaces the context by a child and whose
    second wrap is a bridged legacy wrap. *)
Definition child (c : Context) : Context := WithValue c (foreignKey 1) (foreignVal 1).

Definition st_mixed : GoState RW Req World :=
  {| heap := {[ 1 := [with_context child; Bridge (http_logging "x")] ]};
     world := [] |}.

(** A wrap with a state of its own: it records that it was applied, and
    the handler it returns depends on whether it had been applied
    before. *)
Definition counting : Wrap RW Req World :=
  fun next t =>
    (Some (asHandler (Some (fun c w r =>
       emit (match t with [] => "first-build" | _ => "later-build" end) ;;
       ServeHTTPContext next c w r))),
     t ++ ["built"]).

Definition st_counting : GoState RW Req World :=
  {| heap := {[ 1 := [counting] ]}; world := [] |}.

Definition c_counting : Chain := New Background (Slice 1 0 1 1).

(** The growth policy of the Go runtime where doubling the capacity is
    enough, which is where it is used here; when doubling is not enough
    the runtime rounds the needed capacity up to a size class, which this
    policy does not do. *)
Definition double_growth (old needed : nat) : nat :=
  if decide (needed <= 2 * old) then 2 * old else needed.

(** Finalize a chain and serve one request with the result. *)
Definition end_and_serve (c : Chain) (h : Handler RW Req World) (w : RW) (r : Req)
  : M (GoState RW Req World) unit :=
  hh <- Chain_End c h ;;
  lift_world (ServeHTTP hh w r).

(** [s := make([]func(Handler) Handler, 1, 2); s[0] = a; C := New(ctx, s...)]
    followed by [C2 := C.Append(x)]. *)
Definition first_append (grow : nat -> nat -> nat)
  : M (GoState RW Req World) (Chain * Chain) :=
  s <- make_slice [logging "a"] 2 ;;
  let C := New Background s in
  C2 <- call_Append grow C [logging "x"] ;;
  ret (C, C2).

(** [C := New(ctx).Append(a).Append(b).Append(c)] followed by
    [C2 := C.Append(x)], with the runtime's doubling of capacities. *)
Definition first_append_api : M (GoState RW Req World) (Chain * Chain) :=
  s <- variadic [] ;;
  Ca <- call_Append double_growth (New Background s) [logging "a"] ;;
  Cb <- call_Append double_growth Ca [logging "b"] ;;
  C <- call_Append double_growth Cb [logging "c"] ;;
  C2 <- call_Append double_growth C [logging "x"] ;;
  ret (C, C2).

(** The trace a computation leaves when run from the state [st]. *)
Definition events {A : Type} (c : M (GoState RW Req World) A)
    (st : GoState RW Req World) : list string :=
  world (c st).2.

End trace.

(** * Theorems *)

(** ** The post-handler-func context slot *)

Lemma Value_unbound (c : Context) (k : ifaceKey) :
  binds c k = false -> Value c k = nilVal.
Proof.
  induction c as [|parent IH k' v|parent IH id]; simpl; intros Hb.
  - reflexivity.
  - destruct (decide (k' = k)); [discriminate | auto].
  - auto.
Qed.

Lemma InitPHFC_depth (c : Context) (mu : ctxStore) :
  depth (InitPHFC c mu).1 = S (depth c).
Proof. reflexivity. Qed.

(** InitPHFC allocates: the cells that existed before keep their
    contents. *)
Lemma InitPHFC_frame (c : Context) (mu : ctxStore) (l : loc) :
  is_Some (mu !! l) -> (InitPHFC c mu).2 !! l = mu !! l.
Proof.
  intros Hl. unfold InitPHFC; simpl.
  apply lookup_insert_ne. intros <-.
  apply elem_of_dom in Hl. exact (is_fresh (dom mu) Hl).
Qed.

(** C7: GetPHFC on the context returned by InitPHFC finds the pointer
    that InitPHFC stored under the PHFC key, with found = true; GetPHFC on
    a context whose derivation chain has no entry under the PHFC key
    reports found = false. *)
Theorem GetPHFC_InitPHFC (c : Context) (mu : ctxStore) (c0 : Context) :
  (exists p : loc,
     Value (InitPHFC c mu).1 postHandlerFuncCtxKey = ctxPtr (Some p) /\
     GetPHFC (InitPHFC c mu).1 = (Some p, true)) /\
  (binds c0 postHandlerFuncCtxKey = false -> GetPHFC c0 = (None, false)).
Proof.
  split.
  - exists (fresh (dom mu)). split; reflexivity.
  - intros Hb. unfold GetPHFC. by rewrite (Value_unbound _ _ Hb).
Qed.

Lemma GetPHFC_InitPHFC_witness :
  binds (WithCancel (WithValue Background (foreignKey 0) (foreignVal 7)) 1)
        postHandlerFuncCtxKey = false /\
  GetPHFC (WithCancel (WithValue Background (foreignKey 0) (foreignVal 7)) 1)
  = (None, false).
Proof.
  split; [reflexivity |].
  apply (GetPHFC_InitPHFC Background ∅
           (WithCancel (WithValue Background (foreignKey 0) (foreignVal 7)) 1)).
  reflexivity.
Defined.

(** C9: the pointer that GetPHFC returns for the context made by InitPHFC
    refers to a cell that holds the context passed to InitPHFC, which is
    not the derived context InitPHFC returned. *)
Theorem PHFC_cell_holds_original (c : Context) (mu : ctxStore) :
  deref (InitPHFC c mu).2 (GetPHFC (InitPHFC c mu).1).1 = Some c /\
  (InitPHFC c mu).1 <> c /\
  deref (InitPHFC c mu).2 (GetPHFC (InitPHFC c mu).1).1 <> Some (InitPHFC c mu).1.
Proof.
  assert (Hne : (InitPHFC c mu).1 <> c).
  { intros Heq. apply (f_equal depth) in Heq.
    rewrite InitPHFC_depth in Heq. lia. }
  assert (Hd : deref (InitPHFC c mu).2 (GetPHFC (InitPHFC c mu).1).1 = Some c).
  { unfold InitPHFC, GetPHFC; simpl. apply lookup_insert_eq. }
  split; [exact Hd |]. split; [exact Hne |].
  rewrite Hd. intros [= Heq]. by apply Hne.
Qed.

(** ** Laws of the monad *)

Section monad_laws.

Context {S : Type}.

#[global] Instance meq_equivalence {A : Type} : Equivalence (@meq S A).
Proof.
  split.
  - intros c s. reflexivity.
  - intros c1 c2 H s. symmetry. apply H.
  - intros c1 c2 c3 H1 H2 s. rewrite H1. apply H2.
Qed.

#[global] Instance bind_proper {A B : Type} :
  Proper (meq ==> pointwise_relation A meq ==> meq) (@bind S A B).
Proof.
  intros c1 c2 Hc k1 k2 Hk s. unfold bind. rewrite Hc.
  destruct (c2 s) as [[a|] s']; [apply Hk | reflexivity].
Qed.

Lemma bind_ret_l {A B : Type} (a : A) (k : A -> M S B) :
  (x <- ret a ;; k x) =m= k a.
Proof. intros s. reflexivity. Qed.

Lemma bind_ret_unit (c : M S unit) : (c ;; ret tt) =m= c.
Proof.
  intros s. unfold bind, ret. destruct (c s) as [[[]|] s']; reflexivity.
Qed.

Lemma bind_assoc {A B C : Type} (c : M S A) (k : A -> M S B) (k' : B -> M S C) :
  (y <- (x <- c ;; k x) ;; k' y) =m= (x <- c ;; y <- k x ;; k' y).
Proof.
  intros s. unfold bind. destruct (c s) as [[a|] s']; reflexivity.
Qed.

Lemma sequence_app (cs1 cs2 : list (M S unit)) :
  sequence_ (cs1 ++ cs2) =m= (sequence_ cs1 ;; sequence_ cs2).
Proof.
  induction cs1 as [|c cs1 IH]; simpl.
  - intros s. reflexivity.
  - rewrite bind_assoc. apply bind_proper; [reflexivity | intros _; exact IH].
Qed.

Lemma sequence_snoc (cs : list (M S unit)) (c : M S unit) :
  sequence_ (cs ++ [c]) =m= (sequence_ cs ;; c).
Proof.
  rewrite sequence_app. apply bind_proper; [reflexivity | intros _].
  simpl. apply bind_ret_unit.
Qed.

End monad_laws.

(** ** Reading a chain: the loop of End and the nesting of wraps *)

Section chain_theory.

Context {ResponseWriter Request World : Type}.

Local Abbreviation Handler := (Handler ResponseWriter Request World).
Local Abbreviation httpHandler := (httpHandler ResponseWriter Request World).
Local Abbreviation serveCtxFn := (serveCtxFn ResponseWriter Request World).
Local Abbreviation serveFn := (serveFn ResponseWriter Request World).
Local Abbreviation Wrap := (Wrap ResponseWriter Request World).
Local Abbreviation httpWrap := (httpWrap ResponseWriter Request World).
Local Abbreviation GoState := (GoState ResponseWriter Request World).

Implicit Types (c : Chain) (h : Handler) (st : GoState) (ws : list Wrap).

Lemma lift_world_heap {A : Type} (k : M World A) st :
  heap (lift_world k st).2 = heap st.
Proof. unfold lift_world. destruct (k (world st)); reflexivity. Qed.

Lemma lift_world_proper {A : Type} (k1 k2 : M World A) :
  k1 =m= k2 -> @lift_world ResponseWriter Request World A k1 =m= lift_world k2.
Proof. intros H st. unfold lift_world. by rewrite H. Qed.

Lemma lift_world_bind {A B : Type} (k : M World A) (k' : A -> M World B) :
  @lift_world ResponseWriter Request World B (x <- k ;; k' x)
  =m= (x <- lift_world k ;; lift_world (k' x)).
Proof.
  intros st. unfold lift_world, bind.
  destruct (k (world st)) as [[a|] w']; reflexivity.
Qed.

Lemma lift_world_ret {A : Type} (a : A) st :
  @lift_world ResponseWriter Request World A (ret a) st = (Some a, st).
Proof. destruct st; reflexivity. Qed.

Lemma index_elems (s : slice) (i : nat) (w : Wrap) st :
  elems (heap st) s !! i = Some w -> index s i st = (Some w, st).
Proof.
  unfold elems. intros Hi.
  apply lookup_take_Some in Hi as [Hi Hlt].
  rewrite lookup_drop in Hi.
  unfold index, bind, get_heap.
  destruct (decide (i < sl_len s)) as [_|]; [| lia].
  destruct (heap st !! sl_arr s) as [a|]; simpl in *.
  - by rewrite Hi.
  - by rewrite lookup_nil in Hi.
Qed.

Lemma wrap_all_snoc ws (w : Wrap) h :
  wrap_all (ws ++ [w]) h =m= (h' <- w h ;; wrap_all ws h').
Proof.
  induction ws as [|w0 ws IH]; simpl.
  - rewrite bind_ret_l. intros s. unfold bind.
    destruct (w h s) as [[a|] s']; reflexivity.
  - rewrite IH. apply bind_assoc.
Qed.

(** The loop of End over the first [k] stored wraps computes their
    nesting. *)
Lemma End_loop_wrap_all c ws (k : nat) :
  forall h st,
    stores (heap st) c ws -> k <= sl_len (m c) ->
    End_loop c k h st = lift_world (wrap_all (take k ws) h) st.
Proof.
  induction k as [|i IH]; intros h st Hst Hk.
  - simpl. by rewrite lift_world_ret.
  - destruct Hst as [Hel Hlen].
    destruct (lookup_lt_is_Some_2 ws i) as [w Hw]; [lia |].
    rewrite (take_S_r _ _ _ Hw).
    rewrite (lift_world_proper _ _ (wrap_all_snoc _ _ _) st).
    rewrite lift_world_bind.
    simpl. unfold bind at 1.
    rewrite (index_elems _ _ w); [| by rewrite Hel].
    unfold bind.
    pose proof (lift_world_heap (w h) st) as Hheap.
    destruct (lift_world (w h) st) as [[h'|] st1]; [| reflexivity].
    simpl in Hheap. apply IH; [| lia].
    split; [by rewrite Hheap | done].
Qed.

(** End on a non-nil handler: nest the stored wraps around it, then
    bind the result to the context of the chain. *)
Lemma Chain_End_wrap_all c ws (f : serveCtxFn) st :
  stores (heap st) c ws ->
  Chain_End c (Some f) st
  = lift_world (h' <- wrap_all ws (Some f) ;;
                ret (Some (handlerAdapter_ServeHTTP {| ha_ctx := ctx c; ha_h := h' |}))) st.
Proof.
  intros Hst. unfold Chain_End.
  rewrite lift_world_bind. unfold bind.
  rewrite (End_loop_wrap_all c ws _ _ _ Hst (Nat.le_refl _)).
  rewrite firstn_all2 by (destruct Hst; lia).
  destruct (lift_world (wrap_all ws (Some f)) st) as [[h'|] st1]; [| reflexivity].
  by rewrite lift_world_ret.
Qed.

Lemma wrap_all_pure (gs : list (Handler -> Handler)) h (s : World) :
  wrap_all (map pure_wrap gs) h s = (Some (foldr (fun g acc => g acc) h gs), s).
Proof.
  induction gs as [|g gs IH]; simpl; [reflexivity |].
  unfold bind. by rewrite IH.
Qed.

Lemma wrap_all_layers (sides : list (serveCtxFn * serveCtxFn)) (f : serveCtxFn)
    (s : World) :
  wrap_all (map layer sides) (Some f) s = (Some (Some (nest_layers sides f)), s).
Proof.
  induction sides as [|p sides IH]; simpl; [reflexivity |].
  unfold bind. by rewrite IH.
Qed.

(** The events of nested layers: entries in order, the handler, exits
    in reverse order. *)
Lemma nest_layers_order (sides : list (serveCtxFn * serveCtxFn)) (f : serveCtxFn)
    (c0 : Context) (w : ResponseWriter) (r : Request) :
  nest_layers sides f c0 w r
  =m= (sequence_ (map (fun p => p.1 c0 w r) sides) ;;
       f c0 w r ;;
       sequence_ (rev (map (fun p => p.2 c0 w r) sides))).
Proof.
  induction sides as [|p sides IH]; simpl.
  - rewrite bind_ret_l. symmetry. apply bind_ret_unit.
  - setoid_rewrite IH. setoid_rewrite sequence_snoc.
    repeat setoid_rewrite bind_assoc. reflexivity.
Qed.

Lemma index_state (s : slice) (i : nat) st : (index s i st).2 = st.
Proof.
  unfold index, bind, get_heap.
  destruct (decide (i < sl_len s)); [| reflexivity].
  destruct (heap st !! sl_arr s ≫= _); reflexivity.
Qed.

(** The loop of End writes to no backing array, whatever the store
    holds. *)
Lemma End_loop_heap c (k : nat) :
  forall h st, heap (End_loop c k h st).2 = heap st.
Proof.
  induction k as [|i IH]; intros h st; simpl; [reflexivity |].
  unfold bind at 1.
  pose proof (index_state (m c) i st) as Hi.
  destruct (index (m c) i st) as [[w|] st1]; simpl in Hi; subst st1;
    [| reflexivity].
  unfold bind.
  pose proof (lift_world_heap (w h) st) as Hh.
  destruct (lift_world (w h) st) as [[h'|] st2]; simpl in Hh; [| exact Hh].
  by rewrite IH.
Qed.

Lemma Chain_End_heap c h st : heap (Chain_End c h st).2 = heap st.
Proof.
  destruct h as [f|]; simpl; [| reflexivity].
  unfold bind.
  pose proof (End_loop_heap c (sl_len (m c)) (Some f) st) as Hh.
  destruct (End_loop c (sl_len (m c)) (Some f) st) as [[h'|] st1]; exact Hh.
Qed.

Lemma Chain_End_pure c (gs : list (Handler -> Handler)) (f : serveCtxFn) st :
  stores (heap st) c (map pure_wrap gs) ->
  Chain_End c (Some f) st
  = (Some (Some (handlerAdapter_ServeHTTP
                   {| ha_ctx := ctx c;
                      ha_h := foldr (fun g acc => g acc) (Some f) gs |})), st).
Proof.
  intros Hst. rewrite (Chain_End_wrap_all _ _ _ _ Hst).
  unfold lift_world, bind. rewrite wrap_all_pure. by destruct st.
Qed.

Lemma Chain_End_layers c (sides : list (serveCtxFn * serveCtxFn))
    (f : serveCtxFn) st :
  stores (heap st) c (map layer sides) ->
  Chain_End c (Some f) st
  = (Some (Some (handlerAdapter_ServeHTTP
                   {| ha_ctx := ctx c; ha_h := Some (nest_layers sides f) |})), st).
Proof.
  intros Hst. rewrite (Chain_End_wrap_all _ _ _ _ Hst).
  unfold lift_world, bind. rewrite wrap_all_layers. by destruct st.
Qed.

End chain_theory.

(** ** Finalizing a chain *)

Section chain_end.

Context {ResponseWriter Request World : Type}.

Local Abbreviation Handler := (Handler ResponseWriter Request World).
Local Abbreviation HandlerFunc := (HandlerFunc ResponseWriter Request World).
Local Abbreviation httpHandler := (httpHandler ResponseWriter Request World).
Local Abbreviation serveCtxFn := (serveCtxFn ResponseWriter Request World).
Local Abbreviation serveFn := (serveFn ResponseWriter Request World).
Local Abbreviation Wrap := (Wrap ResponseWriter Request World).
Local Abbreviation GoState := (GoState ResponseWriter Request World).

Implicit Types (c : Chain) (h : Handler) (st : GoState) (ws : list Wrap).


(** C3, amended: End applies the stored wraps to a non-nil handler in
    reverse order of storage, so the last stored wrap is applied first
    and is the innermost layer, and the first stored wrap is applied
    last and is the outermost layer: the handler bound to the context
    of the chain is wrap[0](wrap[1](...wrap[n-1](h)...)). *)
Theorem End_applies_wraps_in_reverse c ws (f : serveCtxFn) st :
  stores (heap st) c ws ->
  Chain_End c (Some f) st
  = lift_world
      (h' <- wrap_all ws (Some f) ;;
       ret (Some (handlerAdapter_ServeHTTP {| ha_ctx := ctx c; ha_h := h' |}))) st
  /\
  forall gs : list (Handler -> Handler),
    ws = map pure_wrap gs ->
    Chain_End c (Some f) st
    = (Some (Some (handlerAdapter_ServeHTTP
                     {| ha_ctx := ctx c;
                        ha_h := foldr (fun g acc => g acc) (Some f) gs |})), st).
Proof.
  intros Hst. split.
  - by apply Chain_End_wrap_all.
  - intros gs ->. by apply Chain_End_pure.
Qed.

(** C4: End on the nil handler returns the nil http.Handler for every
    chain and every store, and leaves the state as it was: no stored
    wrap is read or called. *)
Theorem End_nil c st : Chain_End c None st = (Some None, st).
Proof. reflexivity. Qed.

(** C5: EndFn on the nil func is End on the nil handler, and EndFn on
    a non-nil func f is End on f converted to the interface Handler. *)
Theorem EndFn_reduces_to_End c (f : serveCtxFn) :
  Chain_EndFn c (None : HandlerFunc) = Chain_End c (None : Handler) /\
  Chain_EndFn c (Some f) = Chain_End c (asHandler (Some f)).
Proof. split; reflexivity. Qed.

(** C8: when the stored wraps, nested around a non-nil handler, give
    the handler hw, End returns a non-nil http.Handler whose ServeHTTP,
    on every response writer w and request r, is the call of
    hw.ServeHTTPContext with the context stored in the chain, w and r. *)
Theorem End_binds_chain_context c ws (f : serveCtxFn) st hw st' :
  stores (heap st) c ws ->
  lift_world (wrap_all ws (Some f)) st = (Some hw, st') ->
  exists serve : serveFn,
    Chain_End c (Some f) st = (Some (Some serve), st') /\
    forall w r, serve w r = ServeHTTPContext hw (ctx c) w r.
Proof.
  intros Hst Hw.
  exists (handlerAdapter_ServeHTTP {| ha_ctx := ctx c; ha_h := hw |}).
  split; [| reflexivity].
  rewrite (Chain_End_wrap_all _ _ _ _ Hst).
  rewrite lift_world_bind. unfold bind. rewrite Hw.
  by rewrite lift_world_ret.
Qed.

(** C10, amended: End and EndFn write to no backing array, so the chain
    they are called on has the same context and the same wrap sequence
    afterwards; when the stored wraps are effect-free (the handler each
    returns is a function of the handler it is given alone), finalizing
    the chain twice with the same handler gives the same http.Handler
    both times. *)
Theorem End_leaves_chain_unchanged c h (hf : HandlerFunc) st
    (gs : list (Handler -> Handler)) (f : serveCtxFn) :
  heap (Chain_End c h st).2 = heap st /\
  heap (Chain_EndFn c hf st).2 = heap st /\
  (stores (heap st) c (map pure_wrap gs) ->
   exists hh : httpHandler,
     (r1 <- Chain_End c (Some f) ;; r2 <- Chain_End c (Some f) ;; ret (r1, r2)) st
     = (Some (hh, hh), st)).
Proof.
  split; [apply Chain_End_heap |]. split.
  - destruct hf; apply Chain_End_heap.
  - intros Hst. eexists. unfold bind.
    rewrite (Chain_End_pure _ _ _ _ Hst).
    rewrite (Chain_End_pure _ _ _ _ Hst). reflexivity.
Qed.

End chain_end.

(** ** Bridging wraps of the host framework *)

Section bridge.

Context {ResponseWriter Request World : Type}.

Local Abbreviation Handler := (Handler ResponseWriter Request World).
Local Abbreviation serveCtxFn := (serveCtxFn ResponseWriter Request World).
Local Abbreviation serveFn := (serveFn ResponseWriter Request World).
Local Abbreviation httpWrap := (httpWrap ResponseWriter Request World).
Local Abbreviation GoState := (GoState ResponseWriter Request World).

(** One bridged wrap: the handler it returns for [n] hands the legacy
    wrap a non-nil plain handler that calls [n] with the context the
    layer was entered with, and serves the request with what the legacy
    wrap returns. *)
Lemma Bridge_apply (l : httpWrap) (n : Handler) (s : World) :
  Bridge l n s
  = (Some (Some (fun c0 w r =>
       p <- l (Some (handlerAdapter_ServeHTTP {| ha_ctx := c0; ha_h := n |})) ;;
       ServeHTTP p w r)), s).
Proof. reflexivity. Qed.

Lemma wrap_all_bridges (ls : list httpWrap) (f : serveCtxFn) (s : World) :
  wrap_all (map Bridge ls) (Some f) s
  = (Some (Some (fun c0 => plain_serve c0 ls (Some f))), s).
Proof.
  induction ls as [|l ls IH]; simpl; [reflexivity |].
  unfold bind. by rewrite IH.
Qed.

Lemma plain_serve_layers (c0 : Context) (sides : list (serveFn * serveFn))
    (f : serveCtxFn) (w : ResponseWriter) (r : Request) :
  plain_serve c0 (map http_layer sides) (Some f) w r
  =m= (sequence_ (map (fun p => p.1 w r) sides) ;;
       f c0 w r ;;
       sequence_ (rev (map (fun p => p.2 w r) sides))).
Proof.
  induction sides as [|p sides IH]; simpl.
  - rewrite bind_ret_l. symmetry. apply bind_ret_unit.
  - unfold http_layer at 1. rewrite bind_ret_l. simpl.
    setoid_rewrite IH. setoid_rewrite sequence_snoc.
    repeat setoid_rewrite bind_assoc. reflexivity.
Qed.

(** C6: when a chain stores only bridged legacy wraps, End on a non-nil
    handler f returns the plain handler in which every legacy wrap
    receives a non-nil http.Handler made of the layers below it, and
    the innermost of these, when called with a response writer and a
    request, calls f with the context of the chain and with them.
    When the legacy wraps are layers that pass on the response writer
    and request they receive, f runs between their entry and exit
    sides with the context of the chain and the response writer and
    request of the call. *)
Theorem Bridge_chain_keeps_context (c : Chain) (ls : list httpWrap)
    (f : serveCtxFn) (st : GoState) :
  stores (heap st) c (map Bridge ls) ->
  Chain_End c (Some f) st = (Some (Some (plain_serve (ctx c) ls (Some f))), st) /\
  (forall w r, plain_serve (ctx c) [] (Some f) w r = f (ctx c) w r) /\
  (forall sides : list (serveFn * serveFn),
     ls = map http_layer sides ->
     forall w r,
       plain_serve (ctx c) ls (Some f) w r
       =m= (sequence_ (map (fun p => p.1 w r) sides) ;;
            f (ctx c) w r ;;
            sequence_ (rev (map (fun p => p.2 w r) sides)))).
Proof.
  intros Hst. split; [| split].
  - rewrite (Chain_End_wrap_all _ _ _ _ Hst).
    unfold lift_world, bind. rewrite wrap_all_bridges. by destruct st.
  - reflexivity.
  - intros sides -> w r. apply plain_serve_layers.
Qed.

End bridge.

(** ** Append *)

Section window.

Context {A : Type}.
Implicit Types (a xs : list A).

(** Writing at or after position [pos] leaves every window that ends
    at or before [pos] as it was. *)
Lemma window_inserts_before a xs (pos off len : nat) :
  off + len <= pos ->
  take len (drop off (list_inserts pos xs a)) = take len (drop off a).
Proof.
  intros Hle. apply list_eq; intros i. rewrite !lookup_take.
  case_decide; [| reflexivity].
  rewrite !lookup_drop. apply list_lookup_inserts_lt. lia.
Qed.

(** Writing [xs] right after a window extends it by [xs]. *)
Lemma window_inserts_extend a xs (off len : nat) :
  off + len + length xs <= length a ->
  take (len + length xs) (drop off (list_inserts (off + len) xs a))
  = take len (drop off a) ++ xs.
Proof.
  intros Hle. apply list_eq; intros i.
  assert (Hlen : length (take len (drop off a)) = len).
  { rewrite length_take, length_drop. lia. }
  rewrite lookup_take. case_decide as Hi.
  - rewrite lookup_drop. destruct (decide (i < len)) as [Hlt|Hge].
    + rewrite list_lookup_inserts_lt by lia.
      rewrite lookup_app_l by lia.
      by rewrite lookup_take_lt, lookup_drop.
    + rewrite list_lookup_inserts by lia.
      rewrite lookup_app_r by lia. rewrite Hlen. f_equal. lia.
  - symmetry. apply lookup_ge_None. rewrite length_app, Hlen. lia.
Qed.

End window.

Section chain_append.

Context {ResponseWriter Request World : Type}.
Variable growslice : nat -> nat -> nat.

Local Abbreviation Wrap := (Wrap ResponseWriter Request World).
Local Abbreviation GoState := (GoState ResponseWriter Request World).

Implicit Types (c : Chain) (st : GoState) (ws xs : list Wrap) (s : slice).

Lemma go_append_eq s xs st :
  go_append growslice s xs st
  = if decide (sl_len s + length xs <= sl_cap s) then
      (Some (Slice (sl_arr s) (sl_off s) (sl_len s + length xs) (sl_cap s)),
       {| heap := alter (list_inserts (sl_off s + sl_len s) xs) (sl_arr s) (heap st);
          world := world st |})
    else
      let l := fresh (dom (heap st)) in
      let n := sl_len s + length xs in
      let k := Nat.max n (growslice (sl_cap s) n) in
      (Some (Slice l 0 n k),
       {| heap := <[l := elems (heap st) s ++ xs ++ replicate (k - n) nilWrap]> (heap st);
          world := world st |}).
Proof.
  unfold go_append, bind, get_heap, set_heap, ret. simpl.
  destruct (decide (sl_len s + length xs <= sl_cap s)); reflexivity.
Qed.

Lemma Chain_Append_eq c (mw : slice) st :
  Chain_Append growslice c mw st
  = let r := go_append growslice (m c) (elems (heap st) mw) st in
    ((fun s => {| ctx := ctx c; m := s |}) <$> r.1, r.2).
Proof.
  unfold Chain_Append, bind, get_heap. simpl.
  destruct (go_append growslice (m c) (elems (heap st) mw) st) as [[s|] st'];
    reflexivity.
Qed.

(** The slice that append returns holds the elements of its argument
    followed by the new ones, and is backed. *)
Lemma go_append_elems s xs st :
  slice_ok (heap st) s ->
  exists s' st',
    go_append growslice s xs st = (Some s', st') /\
    world st' = world st /\
    sl_len s' = sl_len s + length xs /\
    elems (heap st') s' = elems (heap st) s ++ xs /\
    slice_ok (heap st') s'.
Proof.
  intros [Hlc Hback]. rewrite go_append_eq.
  destruct (decide (sl_len s + length xs <= sl_cap s)) as [Hfit|Hgrow].
  - eexists _, _. split; [reflexivity |]. simpl.
    split; [reflexivity |]. split; [reflexivity |].
    destruct (decide (0 < sl_cap s)) as [Hpos|Hzero].
    + destruct (Hback Hpos) as (a & Ha & Hwin).
      unfold elems; simpl. rewrite lookup_alter, decide_True by done.
      rewrite Ha; simpl. split.
      * apply window_inserts_extend. lia.
      * split; [simpl; lia |]. intros _. simpl.
        rewrite lookup_alter, decide_True by done. rewrite Ha; simpl.
        eexists; split; [reflexivity |]. rewrite length_inserts. lia.
    + assert (Hxs : xs = []) by (apply length_zero_iff_nil; lia).
      subst xs. unfold elems; simpl.
      replace (sl_len s + 0) with 0 by lia. replace (sl_len s) with 0 by lia.
      simpl. split; [reflexivity |].
      split; [simpl; lia |]. simpl. intros ?; lia.
  - eexists _, _. split; [reflexivity |]. simpl.
    split; [reflexivity |]. split; [reflexivity |].
    assert (Hlen : length (elems (heap st) s) = sl_len s).
    { unfold elems. destruct (decide (0 < sl_cap s)) as [Hpos|Hzero].
      - destruct (Hback Hpos) as (a & Ha & Hwin). rewrite Ha; simpl.
        rewrite length_take, length_drop. lia.
      - replace (sl_len s) with 0 by lia. reflexivity. }
    split.
    + unfold elems at 1; simpl. rewrite lookup_insert_eq; simpl.
      rewrite (assoc_L (++)).
      apply take_app_length'. rewrite length_app. lia.
    + split; [simpl; lia |]. intros _. simpl.
      rewrite lookup_insert_eq.
      eexists; split; [reflexivity |].
      rewrite !length_app, length_replicate. lia.
Qed.

(** Append never writes inside the window of its receiver, nor in any
    other array that existed: a slice keeps its elements when it lies
    in another array, or in the same array and ends no later than the
    receiver does. *)
Lemma go_append_frame s xs st (s0 : slice) :
  sl_len s0 = 0 \/ is_Some (heap st !! sl_arr s0) ->
  sl_arr s0 <> sl_arr s \/ sl_off s0 + sl_len s0 <= sl_off s + sl_len s ->
  elems (heap (go_append growslice s xs st).2) s0 = elems (heap st) s0.
Proof.
  intros [Hnil|Hsome] Hsep.
  { unfold elems. rewrite Hnil. reflexivity. }
  rewrite go_append_eq.
  destruct (decide (sl_len s + length xs <= sl_cap s)) as [Hfit|Hgrow]; simpl.
  - unfold elems. rewrite lookup_alter. case_decide as Heq; [| reflexivity].
    rewrite Heq. destruct Hsep as [Hne|Hbefore]; [congruence |].
    destruct (heap st !! sl_arr s0) as [a|]; simpl; [| reflexivity].
    by apply window_inserts_before.
  - unfold elems. rewrite lookup_insert_ne; [reflexivity |].
    intros Heq. apply elem_of_dom in Hsome. rewrite <- Heq in Hsome.
    exact (is_fresh _ Hsome).
Qed.

(** What Append guarantees: the chain it returns has the context of
    the receiver and stores the wraps of the receiver followed by the
    new ones, and the receiver still stores its own wraps. *)
Lemma Chain_Append_stores c (mw : slice) st ws :
  slice_ok (heap st) (m c) ->
  stores (heap st) c ws ->
  exists c' st',
    Chain_Append growslice c mw st = (Some c', st') /\
    ctx c' = ctx c /\
    world st' = world st /\
    stores (heap st') c' (ws ++ elems (heap st) mw) /\
    slice_ok (heap st') (m c') /\
    stores (heap st') c ws.
Proof.
  intros Hok [Hel Hlen].
  destruct (go_append_elems (m c) (elems (heap st) mw) st Hok)
    as (s' & st' & Happ & Hw & Hl & He & Hok').
  exists {| ctx := ctx c; m := s' |}, st'.
  rewrite Chain_Append_eq, Happ. simpl.
  split; [reflexivity |]. split; [reflexivity |]. split; [exact Hw |].
  split; [| split; [exact Hok' |]].
  - split; simpl; [by rewrite He, Hel |].
    rewrite length_app, Hl. by rewrite Hlen.
  - split; [| exact Hlen]. rewrite <- Hel.
    replace st' with (go_append growslice (m c) (elems (heap st) mw) st).2
      by (by rewrite Happ).
    apply go_append_frame; [| right; lia].
    destruct Hok as [Hlc Hback].
    destruct (decide (0 < sl_cap (m c))) as [Hpos|Hzero].
    + right. destruct (Hback Hpos) as (a & Ha & _). by rewrite Ha.
    + left. lia.
Qed.

(** X5: the defect of Append in general: when the new wraps fit in the
    spare capacity of the receiver, a second Append of as many wraps to
    the same receiver overwrites what the first one wrote, and the chain
    the first Append returned then stores the wraps of the second. *)
Lemma Chain_Append_overwrites c (mx my : slice) st ws (C2 C3 : Chain) st1 st2 :
  slice_ok (heap st) (m c) ->
  stores (heap st) c ws ->
  0 < length (elems (heap st) mx) ->
  sl_len (m c) + length (elems (heap st) mx) <= sl_cap (m c) ->
  length (elems (heap st1) my) = length (elems (heap st) mx) ->
  Chain_Append growslice c mx st = (Some C2, st1) ->
  Chain_Append growslice c my st1 = (Some C3, st2) ->
  stores (heap st2) C2 (ws ++ elems (heap st1) my).
Proof.
  intros [Hlc Hback] [Hel Hlen] Hpos Hfit Hsame H1 H2.
  destruct (Hback ltac:(lia)) as (a & Ha & Hwin).
  rewrite Chain_Append_eq in H1, H2.
  set (xs := elems (heap st) mx) in *. set (ys := elems (heap st1) my) in *.
  clearbody xs ys.
  rewrite go_append_eq, decide_True in H1 by done.
  rewrite go_append_eq, decide_True in H2 by lia.
  simpl in H1, H2. injection H1 as <- <-. injection H2 as <- <-.
  unfold stores, elems; simpl.
  rewrite !lookup_alter, !decide_True by done. rewrite Ha; simpl.
  split.
  - rewrite <- Hsame.
    rewrite window_inserts_extend by (rewrite length_inserts; lia).
    rewrite window_inserts_before by lia.
    f_equal. rewrite <- Hel. unfold elems. by rewrite Ha.
  - rewrite length_app, Hlen, Hsame. reflexivity.
Qed.

(** The slice of a call with explicit variadic arguments holds the
    arguments; the slices that were backed keep their elements. *)
Lemma variadic_elems xs st :
  exists (mw : slice) st',
    variadic xs st = (Some mw, st') /\
    world st' = world st /\
    elems (heap st') mw = xs /\
    sl_len mw = length xs /\
    slice_ok (heap st') mw /\
    forall s0 : slice,
      slice_ok (heap st) s0 ->
      slice_ok (heap st') s0 /\ elems (heap st') s0 = elems (heap st) s0.
Proof.
  destruct xs as [|x xs].
  - exists nil_slice, st. simpl.
    split; [reflexivity |]. split; [reflexivity |]. split; [reflexivity |].
    split; [reflexivity |].
    split; [split; simpl; [lia | intros ?; lia] |].
    intros s0 Hs0. by split.
  - unfold variadic, bind, get_heap, set_heap, ret. simpl.
    eexists _, _. split; [reflexivity |]. simpl.
    split; [reflexivity |]. split.
    + unfold elems; simpl. rewrite lookup_insert_eq; simpl.
      by rewrite take_ge.
    + split; [reflexivity |]. split.
      { split; simpl; [lia |]. intros _. rewrite lookup_insert_eq.
        eexists; split; [reflexivity |]. simpl. lia. }
      intros s0 [Hlc Hback].
      destruct (decide (0 < sl_cap s0)) as [Hpos|Hzero].
      * destruct (Hback Hpos) as (a & Ha & Hwin).
        assert (Hne : fresh (dom (heap st)) <> sl_arr s0).
        { intros Heq. apply (is_fresh (dom (heap st))). rewrite Heq.
          apply elem_of_dom. by rewrite Ha. }
        split.
        -- split; [exact Hlc |]. intros _. exists a.
           by rewrite lookup_insert_ne.
        -- unfold elems. by rewrite lookup_insert_ne.
      * split.
        -- split; [exact Hlc |]. intros ?; lia.
        -- unfold elems. replace (sl_len s0) with 0 by lia. reflexivity.
Qed.

(** The call [c.Append(xs...)] with explicit arguments returns a chain
    that stores the wraps of [c] followed by [xs], and leaves [c] as it
    was. *)
Lemma call_Append_stores c xs st ws :
  slice_ok (heap st) (m c) ->
  stores (heap st) c ws ->
  exists (c' : Chain) st',
    call_Append growslice c xs st = (Some c', st') /\
    ctx c' = ctx c /\
    world st' = world st /\
    stores (heap st') c' (ws ++ xs) /\
    slice_ok (heap st') (m c') /\
    stores (heap st') c ws.
Proof.
  intros Hok [Hel Hlen].
  destruct (variadic_elems xs st) as (mw & st1 & Hv & Hw1 & Hmw & _ & _ & Hframe).
  destruct (Hframe _ Hok) as [Hok1 Hel1].
  assert (Hst1 : stores (heap st1) c ws).
  { split; [by rewrite Hel1 | exact Hlen]. }
  destruct (Chain_Append_stores c mw st1 ws Hok1 Hst1)
    as (c' & st' & Happ & Hctx & Hw & Hst' & Hok' & Hc).
  exists c', st'. unfold call_Append, bind. rewrite Hv, Happ.
  split; [reflexivity |]. split; [exact Hctx |].
  split; [by rewrite Hw |].
  split; [by rewrite <- Hmw |]. by split.
Qed.

End chain_append.

(** ** Building a chain and finalizing it *)

Section build_and_end.

Context {ResponseWriter Request World : Type}.
Variable growslice : nat -> nat -> nat.

Local Abbreviation serveCtxFn := (serveCtxFn ResponseWriter Request World).
Local Abbreviation serveFn := (serveFn ResponseWriter Request World).
Local Abbreviation GoState := (GoState ResponseWriter Request World).

(** X9: [New(ctx, ws0...).Append(ws1...).End(f)] for layers [ws0] and [ws1],
    from any state and with any growth policy: the handler performs the
    entry sides in the order the wraps were given, then [f] with [ctx],
    then the exit sides in reverse order. *)
Theorem New_Append_End_order (ctx0 : Context)
    (sides0 sides1 : list (serveCtxFn * serveCtxFn)) (f : serveCtxFn)
    (st : GoState) :
  exists (serve : serveFn) (st' : GoState),
    (mw <- variadic (map layer sides0) ;;
     c <- call_Append growslice (New ctx0 mw) (map layer sides1) ;;
     Chain_End c (Some f)) st
    = (Some (Some serve), st') /\
    world st' = world st /\
    forall w r,
      serve w r
      =m= (sequence_ (map (fun p => p.1 ctx0 w r) (sides0 ++ sides1)) ;;
           f ctx0 w r ;;
           sequence_ (rev (map (fun p => p.2 ctx0 w r) (sides0 ++ sides1)))).
Proof.
  destruct (variadic_elems (map layer sides0) st)
    as (mw & st1 & Hv & Hw1 & Hmw & Hlen & Hok & _).
  assert (Hst1 : stores (heap st1) (New ctx0 mw) (map layer sides0)).
  { split; [exact Hmw | simpl; by symmetry]. }
  destruct (call_Append_stores growslice (New ctx0 mw) (map layer sides1)
              st1 _ Hok Hst1)
    as (c & st2 & Happ & Hctx & Hw2 & Hst2 & _ & _).
  rewrite <- map_app in Hst2.
  eexists _, st2. unfold bind at 1. rewrite Hv.
  unfold bind at 1. rewrite Happ.
  rewrite (Chain_End_layers _ _ _ _ Hst2).
  split; [reflexivity |]. split; [congruence |].
  intros w r. simpl in Hctx. rewrite Hctx. apply nest_layers_order.
Qed.

End build_and_end.

(** * Further properties of the package *)

(** ** The context slot under derivation and repeated initialization *)

Lemma GetPHFC_derive1 (c : Context) (d : derivation) :
  rebinds postHandlerFuncCtxKey d = false ->
  GetPHFC (derive1 c d) = GetPHFC c.
Proof.
  destruct d as [k v|id]; simpl; intros Hd; [| reflexivity].
  unfold GetPHFC; simpl.
  destruct (decide (k = postHandlerFuncCtxKey)) as [Heq|Hne]; [| reflexivity].
  by rewrite bool_decide_eq_false in Hd.
Qed.

Lemma GetPHFC_derive (ds : list derivation) :
  forall c : Context,
    Forall (fun d => rebinds postHandlerFuncCtxKey d = false) ds ->
    GetPHFC (derive c ds) = GetPHFC c.
Proof.
  induction ds as [|d ds IH]; intros c Hds; [reflexivity |].
  inversion Hds as [|d' ds' Hd Hrest]; subst.
  unfold derive; simpl. fold (derive (derive1 c d) ds).
  rewrite (IH _ Hrest). by apply GetPHFC_derive1.
Qed.

(** X1: every context derived from the result of InitPHFC by WithValue
    with other keys and by cancellation derivations still yields, through
    GetPHFC, the pointer InitPHFC stored, and that pointer still refers
    to the context InitPHFC was given. *)
Theorem PHFC_slot_survives_derivation (c : Context) (mu : ctxStore)
    (ds : list derivation) :
  Forall (fun d => rebinds postHandlerFuncCtxKey d = false) ds ->
  GetPHFC (derive (InitPHFC c mu).1 ds) = (Some (fresh (dom mu)), true) /\
  deref (InitPHFC c mu).2 (GetPHFC (derive (InitPHFC c mu).1 ds)).1 = Some c.
Proof.
  intros Hds. rewrite (GetPHFC_derive ds _ Hds). split; [reflexivity |].
  unfold InitPHFC, GetPHFC; simpl. apply lookup_insert_eq.
Qed.

(** X2: a second InitPHFC, on the context the first one returned or on
    any other context, gets a cell of its own: the two pointers differ,
    the first cell still holds the first context, and GetPHFC on the
    second result finds the second cell. *)
Theorem InitPHFC_cells_distinct (c c' : Context) (mu : ctxStore) :
  exists p1 p2 : loc,
    GetPHFC (InitPHFC c mu).1 = (Some p1, true) /\
    GetPHFC (InitPHFC c' (InitPHFC c mu).2).1 = (Some p2, true) /\
    p1 <> p2 /\
    mu !! p1 = None /\
    (InitPHFC c' (InitPHFC c mu).2).2 !! p1 = Some c /\
    (InitPHFC c' (InitPHFC c mu).2).2 !! p2 = Some c'.
Proof.
  exists (fresh (dom mu)), (fresh (dom (<[fresh (dom mu) := c]> mu))).
  assert (Hne : fresh (dom mu) <> fresh (dom (<[fresh (dom mu) := c]> mu))).
  { intros Heq.
    apply (is_fresh (dom (<[fresh (dom mu) := c]> mu))).
    rewrite <- Heq. apply elem_of_dom. rewrite lookup_insert_eq. by eexists. }
  split; [reflexivity |]. split; [reflexivity |]. split; [exact Hne |].
  split.
  { apply not_elem_of_dom. apply is_fresh. }
  unfold InitPHFC; simpl. split.
  - rewrite lookup_insert_ne by (intros Heq; by apply Hne).
    apply lookup_insert_eq.
  - apply lookup_insert_eq.
Qed.

(** ** What Append guarantees and what it does not *)

Section append_properties.

Context {ResponseWriter Request World : Type}.
Variable growslice : nat -> nat -> nat.

Local Abbreviation Wrap := (Wrap ResponseWriter Request World).
Local Abbreviation GoState := (GoState ResponseWriter Request World).

Implicit Types (c : Chain) (st : GoState) (ws xs ys : list Wrap) (s : slice).

(** Append keeps every backed slice backed. *)
Lemma go_append_keeps_backed s xs st (s0 : slice) :
  slice_ok (heap st) s0 ->
  slice_ok (heap (go_append growslice s xs st).2) s0.
Proof.
  intros [Hlc Hback]. split; [exact Hlc |]. intros Hpos.
  destruct (Hback Hpos) as (a & Ha & Hwin).
  rewrite go_append_eq.
  destruct (decide (sl_len s + length xs <= sl_cap s)) as [Hfit|Hgrow]; simpl.
  - rewrite lookup_alter. case_decide as Heq.
    + rewrite Heq, Ha. simpl. eexists; split; [reflexivity |].
      by rewrite length_inserts.
    + exists a. by split.
  - exists a. split; [| exact Hwin].
    rewrite lookup_insert_ne; [exact Ha |].
    intros Heq. apply (is_fresh (dom (heap st))). rewrite Heq.
    apply elem_of_dom. by rewrite Ha.
Qed.

(** X3: on a backed chain that stores ws, Append returns a chain with
    the context of the receiver that stores ws followed by the elements
    of the argument slice (read before anything is written, so the
    argument may share storage with the receiver); it does not touch
    the world, the receiver still stores ws afterwards, and both chains
    are backed. *)
Theorem Append_extends_receiver c (mw : slice) st ws :
  slice_ok (heap st) (m c) ->
  stores (heap st) c ws ->
  exists (c' : Chain) st',
    Chain_Append growslice c mw st = (Some c', st') /\
    ctx c' = ctx c /\
    world st' = world st /\
    stores (heap st') c' (ws ++ elems (heap st) mw) /\
    stores (heap st') c ws /\
    slice_ok (heap st') (m c') /\
    slice_ok (heap st') (m c).
Proof.
  intros Hok Hst.
  destruct (Chain_Append_stores growslice c mw st ws Hok Hst)
    as (c' & st' & Happ & Hctx & Hw & Hst' & Hok' & Hc).
  exists c', st'. repeat (split; [assumption |]).
  replace st' with (Chain_Append growslice c mw st).2 by (by rewrite Happ).
  rewrite Chain_Append_eq. simpl. by apply go_append_keeps_backed.
Qed.

(** X4: Append changes no slice that lies in another array of the
    store, and no slice of the receiver's array that ends at or before
    the end of the receiver: it only ever writes after the last element
    of the receiver, or into a new array. *)
Theorem Append_frame c (mw : slice) st (s0 : slice) :
  sl_len s0 = 0 \/ is_Some (heap st !! sl_arr s0) ->
  sl_arr s0 <> sl_arr (m c) \/
    sl_off s0 + sl_len s0 <= sl_off (m c) + sl_len (m c) ->
  elems (heap (Chain_Append growslice c mw st).2) s0 = elems (heap st) s0.
Proof.
  intros Hs0 Hsep. rewrite Chain_Append_eq. simpl.
  by apply go_append_frame.
Qed.

(** After an append that had to grow, the new slice is alone in its
    array: no later append to the old slice reaches it. *)
Lemma go_append_grown_alone s xs ys st (s1 : slice) st1 :
  slice_ok (heap st) s ->
  sl_cap s < sl_len s + length xs ->
  go_append growslice s xs st = (Some s1, st1) ->
  heap (go_append growslice s ys st1).2 !! sl_arr s1 = heap st1 !! sl_arr s1.
Proof.
  intros [Hlc Hback] Hgrow H1.
  rewrite go_append_eq, decide_False in H1 by lia. simpl in H1.
  injection H1 as <- <-. simpl.
  rewrite go_append_eq.
  destruct (decide (sl_len s + length ys <= sl_cap s)) as [Hfit|Hgrow2]; simpl.
  - rewrite lookup_alter. case_decide as Heq; [| reflexivity].
    destruct (decide (0 < sl_cap s)) as [Hpos|Hzero].
    + destruct (Hback Hpos) as (a & Ha & _). exfalso.
      apply (is_fresh (dom (heap st))). rewrite <- Heq.
      apply elem_of_dom. by rewrite Ha.
    + assert (Hys : ys = []) by (apply length_zero_iff_nil; lia).
      subst ys. rewrite Heq. simpl.
      by destruct (<[_ := _]> (heap st) !! _).
  - apply lookup_insert_ne. intros Heq.
    apply (is_fresh (dom (<[fresh (dom (heap st)) :=
                            elems (heap st) s ++ xs ++
                            replicate (Nat.max (sl_len s + length xs)
                                         (growslice (sl_cap s) (sl_len s + length xs))
                                       - (sl_len s + length xs)) nilWrap]>
                          (heap st)))).
    rewrite Heq. apply elem_of_dom. rewrite lookup_insert_eq. by eexists.
Qed.

(** X6: when the receiver has no room for the new wraps, Append copies:
    the chain it returns then keeps its wraps whatever is appended to the
    receiver afterwards. *)
Theorem Append_grown_is_independent c (mx my : slice) st ws (C2 : Chain) st1 :
  slice_ok (heap st) (m c) ->
  stores (heap st) c ws ->
  sl_cap (m c) < sl_len (m c) + length (elems (heap st) mx) ->
  Chain_Append growslice c mx st = (Some C2, st1) ->
  stores (heap (Chain_Append growslice c my st1).2) C2
    (ws ++ elems (heap st) mx).
Proof.
  intros Hok Hst Hgrow H1.
  destruct (Chain_Append_stores growslice c mx st ws Hok Hst)
    as (c' & st' & Happ & _ & _ & [Hel' Hlen'] & _ & _).
  rewrite H1 in Happ. injection Happ as <- <-.
  rewrite Chain_Append_eq in H1.
  destruct (go_append growslice (m c) (elems (heap st) mx) st)
    as [[s1|] st1'] eqn:Hg; simpl in H1; [| discriminate].
  injection H1 as <- <-.
  split; [| exact Hlen'].
  rewrite <- Hel'. rewrite Chain_Append_eq. simpl. unfold elems.
  by rewrite (go_append_grown_alone _ _ _ _ _ _ Hok Hgrow Hg).
Qed.

(** X7: Append without wraps returns the receiver itself and leaves the
    state as it is. *)
Theorem Append_nothing c st :
  sl_len (m c) <= sl_cap (m c) ->
  call_Append growslice c [] st = (Some c, st).
Proof.
  intros Hlc. unfold call_Append. simpl. unfold bind at 1. simpl.
  rewrite Chain_Append_eq, go_append_eq. simpl.
  rewrite decide_True by lia. simpl.
  rewrite alter_id by done.
  destruct c as [c0 [a o l k]], st as [hp w]; simpl.
  by rewrite Nat.add_0_r.
Qed.

(** X8: two appends in a row store the wraps of the receiver followed
    by those of the first and of the second call, as one append of both
    lists would; the chain in between keeps its wraps. *)
Theorem Append_twice c xs ys st ws :
  slice_ok (heap st) (m c) ->
  stores (heap st) c ws ->
  exists (c1 c2 : Chain) st1 st2,
    call_Append growslice c xs st = (Some c1, st1) /\
    call_Append growslice c1 ys st1 = (Some c2, st2) /\
    ctx c2 = ctx c /\
    world st2 = world st /\
    stores (heap st2) c2 (ws ++ xs ++ ys) /\
    stores (heap st2) c1 (ws ++ xs).
Proof.
  intros Hok Hst.
  destruct (call_Append_stores growslice c xs st ws Hok Hst)
    as (c1 & st1 & H1 & Hctx1 & Hw1 & Hst1 & Hok1 & _).
  destruct (call_Append_stores growslice c1 ys st1 _ Hok1 Hst1)
    as (c2 & st2 & H2 & Hctx2 & Hw2 & Hst2 & _ & Hc1).
  exists c1, c2, st1, st2.
  split; [exact H1 |]. split; [exact H2 |].
  split; [congruence |]. split; [congruence |].
  split; [by rewrite (assoc_L (++)) | exact Hc1].
Qed.

End append_properties.

(** ** Edge cases of End, and Bridge inside a chain *)

Section end_properties.

Context {ResponseWriter Request World : Type}.

Local Abbreviation Handler := (Handler ResponseWriter Request World).
Local Abbreviation httpHandler := (httpHandler ResponseWriter Request World).
Local Abbreviation serveCtxFn := (serveCtxFn ResponseWriter Request World).
Local Abbreviation serveFn := (serveFn ResponseWriter Request World).
Local Abbreviation Wrap := (Wrap ResponseWriter Request World).
Local Abbreviation httpWrap := (httpWrap ResponseWriter Request World).
Local Abbreviation GoState := (GoState ResponseWriter Request World).

Implicit Types (c : Chain) (h : Handler) (st : GoState) (ws : list Wrap).

(** X10: whenever End returns, its result is the nil http.Handler
    exactly when the handler it was given is the nil interface: the
    handlers the wraps return are not checked. *)
Theorem End_nil_iff c h st (r : httpHandler) st' :
  Chain_End c h st = (Some r, st') ->
  (r = None <-> h = None).
Proof.
  destruct h as [f|]; simpl; intros H.
  - unfold bind in H.
    destruct (End_loop c (sl_len (m c)) (Some f) st) as [[h'|] st1];
      [| discriminate].
    injection H as <- <-. split; discriminate.
  - injection H as <- <-. by split.
Qed.

Lemma wrap_all_nil_panics ws :
  nilWrap ∈ ws -> forall h (s : World), (wrap_all ws h s).1 = None.
Proof.
  induction ws as [|w ws IH]; intros Hin h s.
  - by apply elem_of_nil in Hin.
  - simpl. unfold bind. apply elem_of_cons in Hin as [<-|Hin].
    + by destruct (wrap_all ws h s) as [[h'|] s'].
    + specialize (IH Hin h s).
      destruct (wrap_all ws h s) as [[h'|] s']; [discriminate | reflexivity].
Qed.

(** X11: End on a non-nil handler panics when one of the stored wraps
    is a nil func, wherever it stands in the chain; the backing arrays
    are left as they were. *)
Theorem End_panics_on_nil_wrap c ws (f : serveCtxFn) st :
  stores (heap st) c ws ->
  nilWrap ∈ ws ->
  (Chain_End c (Some f) st).1 = None /\
  heap (Chain_End c (Some f) st).2 = heap st.
Proof.
  intros Hst Hin. split; [| apply Chain_End_heap].
  rewrite (Chain_End_wrap_all _ _ _ _ Hst).
  unfold lift_world, bind.
  pose proof (wrap_all_nil_panics ws Hin (Some f) (world st)) as Hp.
  destruct (wrap_all ws (Some f) (world st)) as [[h'|] s']; [discriminate |].
  reflexivity.
Qed.

Lemma nest_layers_nil_func (sides : list (serveCtxFn * serveCtxFn))
    (c0 : Context) (w : ResponseWriter) (r : Request) (s : World) :
  (nest_layers sides (HandlerFunc_ServeHTTPContext None) c0 w r s).1 = None.
Proof.
  revert s. induction sides as [|p sides IH]; intros s; [reflexivity |].
  simpl. unfold bind at 1.
  destruct (p.1 c0 w r s) as [[[]|] s1]; [| reflexivity].
  unfold bind at 1. specialize (IH s1).
  destruct (nest_layers sides _ c0 w r s1) as [[[]|] s2];
    [discriminate | reflexivity].
Qed.

(** X12: a nil HandlerFunc converted to Handler is not the nil
    interface.  On a chain that stores entry/exit layers, End builds a
    non-nil handler around it, and every request served by that handler
    performs the entry sides of the layers in order and then panics.
    EndFn on the nil HandlerFunc returns the nil http.Handler instead. *)
Theorem End_typed_nil_handler c
    (sides : list (serveCtxFn * serveCtxFn)) st :
  stores (heap st) c (map layer sides) ->
  (exists serve : serveFn,
     Chain_End c (asHandler None) st = (Some (Some serve), st) /\
     (forall w r (s : World), (serve w r s).1 = None) /\
     (forall w r,
        serve w r
        =m= (sequence_ (map (fun p => p.1 (ctx c) w r) sides) ;; panic))) /\
  Chain_EndFn c None st = (Some None, st).
Proof.
  intros Hst. split; [| reflexivity].
  eexists. split; [| split].
  - exact (Chain_End_layers c sides (HandlerFunc_ServeHTTPContext None) st Hst).
  - intros w r s. apply nest_layers_nil_func.
  - intros w r.
    etransitivity; [apply nest_layers_order |].
    apply bind_proper; [reflexivity | intros _].
    intros s. reflexivity.
Qed.

Lemma wrap_all_effectful (egs : list (M World unit * (Handler -> Handler))) h :
  wrap_all (map effectful_wrap egs) h
  =m= (sequence_ (rev (map fst egs)) ;;
       ret (foldr (fun eg acc => eg.2 acc) h egs)).
Proof.
  induction egs as [|eg egs IH]; simpl.
  - intros s. reflexivity.
  - rewrite IH. setoid_rewrite sequence_snoc.
    repeat setoid_rewrite bind_assoc.
    apply bind_proper; [reflexivity | intros _].
    rewrite bind_ret_l. reflexivity.
Qed.

(** X13: End calls the stored wraps from the last to the first: the
    effects the wraps perform while they are applied happen in reverse
    order of storage, and the handler bound to the context of the chain
    is the first wrap's result around the second's and so on. *)
Theorem End_applies_effects_in_reverse c
    (egs : list (M World unit * (Handler -> Handler))) (f : serveCtxFn) st :
  stores (heap st) c (map effectful_wrap egs) ->
  Chain_End c (Some f) st
  = lift_world
      (sequence_ (rev (map fst egs)) ;;
       ret (Some (handlerAdapter_ServeHTTP
                    {| ha_ctx := ctx c;
                       ha_h := foldr (fun eg acc => eg.2 acc) (Some f) egs |})))
      st.
Proof.
  intros Hst. rewrite (Chain_End_wrap_all _ _ _ _ Hst).
  apply lift_world_proper.
  rewrite wrap_all_effectful. rewrite bind_assoc.
  apply bind_proper; [reflexivity | intros _].
  rewrite bind_ret_l. reflexivity.
Qed.

(** X14: a bridged layer hands on the context it is entered with, not
    the context of the chain: when the first wrap replaces the context
    by k of it and the wraps after it are bridged legacy layers, the
    terminal handler runs between their entry and exit sides with the
    context k (ctx c). *)
Theorem Bridge_passes_entry_context c (k : Context -> Context)
    (sides : list (serveFn * serveFn)) (f : serveCtxFn) st :
  stores (heap st) c (with_context k :: map Bridge (map http_layer sides)) ->
  exists serve : serveFn,
    Chain_End c (Some f) st = (Some (Some serve), st) /\
    forall w r,
      serve w r
      =m= (sequence_ (map (fun p => p.1 w r) sides) ;;
           f (k (ctx c)) w r ;;
           sequence_ (rev (map (fun p => p.2 w r) sides))).
Proof.
  intros Hst.
  exists (plain_serve (k (ctx c)) (map http_layer sides) (Some f)).
  split.
  - rewrite (Chain_End_wrap_all _ _ _ _ Hst).
    unfold lift_world. simpl. unfold bind. rewrite wrap_all_bridges.
    by destruct st.
  - intros w r. apply plain_serve_layers.
Qed.

End end_properties.

Import trace.


(** The order of the events of C1 on the chain [a; b]. *)
Example End_order_ab :
  events (end_and_serve c_ab (Some terminal) 0 0) st_ab
  = ["a-in"; "b-in"; "h@root"; "b-out"; "a-out"].
Proof. vm_compute. reflexivity. Qed.

Lemma End_applies_wraps_in_reverse_witness :
  stores (heap st_ab) c_ab [logging "a"; logging "b"] /\
  [logging "a"; logging "b"] = map pure_wrap [logging_handler "a"; logging_handler "b"] /\
  Chain_End c_ab (Some terminal) st_ab
  = lift_world
      (h' <- wrap_all [logging "a"; logging "b"] (Some terminal) ;;
       ret (Some (handlerAdapter_ServeHTTP {| ha_ctx := ctx c_ab; ha_h := h' |})))
      st_ab /\
  Chain_End c_ab (Some terminal) st_ab
  = (Some (Some (handlerAdapter_ServeHTTP
                   {| ha_ctx := ctx c_ab;
                      ha_h := logging_handler "a" (logging_handler "b" (Some terminal)) |})),
     st_ab).
Proof.
  assert (H : stores (heap st_ab) c_ab [logging "a"; logging "b"]).
  { split; vm_compute; reflexivity. }
  assert (Hp : [logging "a"; logging "b"]
               = map pure_wrap [logging_handler "a"; logging_handler "b"]).
  { reflexivity. }
  split; [exact H |]. split; [exact Hp |].
  split.
  - exact (proj1 (End_applies_wraps_in_reverse c_ab _ terminal st_ab H)).
  - exact (proj2 (End_applies_wraps_in_reverse c_ab _ terminal st_ab H) _ Hp).
Defined.

(** C3 as stated fails on the chain that stores [a; b]: the handler End
    returns runs a outside b, whereas with the last stored wrap outermost
    b would run outside a. *)
Lemma End_last_appended_not_outermost :
  stores (heap st_ab) c_ab [logging "a"; logging "b"] /\
  events (end_and_serve c_ab (Some terminal) 0 0) st_ab
  = ["a-in"; "b-in"; "h@root"; "b-out"; "a-out"] /\
  events (lift_world
            (h' <- wrap_all_last_outermost [logging "a"; logging "b"] (Some terminal) ;;
             ServeHTTPContext h' (ctx c_ab) 0 0)) st_ab
  = ["b-in"; "a-in"; "h@root"; "a-out"; "b-out"] /\
  Chain_End c_ab (Some terminal) st_ab
  <> lift_world
       (h' <- wrap_all_last_outermost [logging "a"; logging "b"] (Some terminal) ;;
        ret (Some (handlerAdapter_ServeHTTP {| ha_ctx := ctx c_ab; ha_h := h' |})))
       st_ab.
Proof.
  split; [split; vm_compute; reflexivity |].
  split; [vm_compute; reflexivity |].
  split; [vm_compute; reflexivity |].
  intros H.
  apply (f_equal (fun res : option (httpHandler RW Req World) * GoState RW Req World =>
                    match res.1 with
                    | Some hh => (ServeHTTP hh 0 0 []).2
                    | None => []
                    end)) in H.
  vm_compute in H. discriminate H.
Qed.

(** End on the nil handler does not reach the stored wraps: on a chain
    whose wrap is a nil func, End panics for a non-nil handler and
    returns nil for the nil handler. *)
Example End_nil_skips_wraps :
  Chain_End c_nilwrap None st_nilwrap = (Some None, st_nilwrap) /\
  (Chain_End c_nilwrap (Some terminal) st_nilwrap).1 = None.
Proof. split; vm_compute; reflexivity. Qed.

Lemma End_binds_chain_context_witness :
  stores (heap st_ab) c_ab [logging "a"; logging "b"] /\
  lift_world (wrap_all [logging "a"; logging "b"] (Some terminal)) st_ab
  = (Some (Some (nest_layers [log_sides "a"; log_sides "b"] terminal)), st_ab) /\
  exists serve : serveFn RW Req World,
    Chain_End c_ab (Some terminal) st_ab = (Some (Some serve), st_ab) /\
    forall w r,
      serve w r
      = ServeHTTPContext
          (Some (nest_layers [log_sides "a"; log_sides "b"] terminal))
          (ctx c_ab) w r.
Proof.
  assert (H : stores (heap st_ab) c_ab [logging "a"; logging "b"]).
  { split; vm_compute; reflexivity. }
  assert (Hw : lift_world (wrap_all [logging "a"; logging "b"] (Some terminal)) st_ab
               = (Some (Some (nest_layers [log_sides "a"; log_sides "b"] terminal)),
                  st_ab)).
  { reflexivity. }
  split; [exact H |]. split; [exact Hw |].
  exact (End_binds_chain_context c_ab _ terminal st_ab _ _ H Hw).
Defined.

Lemma End_leaves_chain_unchanged_witness :
  stores (heap st_ab) c_ab (map pure_wrap [logging_handler "a"; logging_handler "b"]) /\
  exists hh : httpHandler RW Req World,
    (r1 <- Chain_End c_ab (Some terminal) ;;
     r2 <- Chain_End c_ab (Some terminal) ;; ret (r1, r2)) st_ab
    = (Some (hh, hh), st_ab).
Proof.
  assert (H : stores (heap st_ab) c_ab
                (map pure_wrap [logging_handler "a"; logging_handler "b"])).
  { split; vm_compute; reflexivity. }
  split; [exact H |].
  exact (proj2 (proj2 (End_leaves_chain_unchanged c_ab None None st_ab
                         [logging_handler "a"; logging_handler "b"] terminal)) H).
Defined.

(** C10 as stated fails for a wrap with a state of its own: two calls of
    End on the same chain, with the same handler, return handlers that
    behave differently, although the chain is the same before and after
    each call. *)
Lemma End_twice_stateful_wrap :
  exists (hh1 hh2 : httpHandler RW Req World) (st' : GoState RW Req World),
    (r1 <- Chain_End c_counting (Some terminal) ;;
     r2 <- Chain_End c_counting (Some terminal) ;; ret (r1, r2)) st_counting
    = (Some (hh1, hh2), st') /\
    heap st' = heap st_counting /\
    ServeHTTP hh1 0 0 [] = (Some tt, ["first-build"; "h@root"]) /\
    ServeHTTP hh2 0 0 [] = (Some tt, ["later-build"; "h@root"]) /\
    hh1 <> hh2.
Proof.
  eexists _, _, _.
  split; [vm_compute; reflexivity |].
  split; [vm_compute; reflexivity |].
  split; [vm_compute; reflexivity |].
  split; [vm_compute; reflexivity |].
  intros H.
  apply (f_equal (fun hh : httpHandler RW Req World => ServeHTTP hh 0 0 [])) in H.
  vm_compute in H. discriminate H.
Qed.

Lemma Bridge_chain_keeps_context_witness :
  stores (heap st_bridged) c_bridged
    (map Bridge [http_logging "x"; http_logging "y"]) /\
  [http_logging "x"; http_logging "y"]
  = map http_layer [http_log_sides "x"; http_log_sides "y"] /\
  Chain_End c_bridged (Some terminal) st_bridged
  = (Some (Some (plain_serve (ctx c_bridged)
                   [http_logging "x"; http_logging "y"] (Some terminal))),
     st_bridged) /\
  forall w r,
    plain_serve (ctx c_bridged) [http_logging "x"; http_logging "y"] (Some terminal) w r
    =m= (sequence_ (map (fun p => p.1 w r) [http_log_sides "x"; http_log_sides "y"]) ;;
         terminal (ctx c_bridged) w r ;;
         sequence_ (rev (map (fun p => p.2 w r)
                             [http_log_sides "x"; http_log_sides "y"]))).
Proof.
  assert (H : stores (heap st_bridged) c_bridged
                (map Bridge [http_logging "x"; http_logging "y"])).
  { split; vm_compute; reflexivity. }
  assert (Hl : [http_logging "x"; http_logging "y"]
               = map http_layer [http_log_sides "x"; http_log_sides "y"]).
  { reflexivity. }
  split; [exact H |]. split; [exact Hl |].
  split.
  - exact (proj1 (Bridge_chain_keeps_context c_bridged _ terminal st_bridged H)).
  - exact (proj2 (proj2 (Bridge_chain_keeps_context c_bridged _ terminal st_bridged H))
             _ Hl).
Defined.

(** The events of a chain of two bridged logging wraps: the terminal
    handler sees the derived context of the chain. *)
Example Bridge_order_xy :
  events (end_and_serve c_bridged (Some terminal) 0 0) st_bridged
  = ["x-in"; "y-in"; "h@derived"; "y-out"; "x-out"].
Proof. vm_compute. reflexivity. Qed.

(** ** Append and shared backing arrays *)

(** C2 fails on the code: when the slice of a chain C has spare capacity,
    C.Append(x) and C.Append(y) write into the same cell of the same
    backing array.  C2 = C.Append(x) serves through [a; x] until
    C3 = C.Append(y) is made, and through [a; y] afterwards; C itself is
    not affected. *)
Theorem Append_siblings_share_storage (grow : nat -> nat -> nat) :
  exists (C C2 C3 : Chain) (st1 st2 : GoState RW Req World),
    first_append grow st0 = (Some (C, C2), st1) /\
    events (end_and_serve C2 (Some terminal) 0 0) st1
    = ["a-in"; "x-in"; "h@root"; "x-out"; "a-out"] /\
    call_Append grow C [logging "y"] st1 = (Some C3, st2) /\
    events (end_and_serve C2 (Some terminal) 0 0) st2
    = ["a-in"; "y-in"; "h@root"; "y-out"; "a-out"] /\
    events (end_and_serve C3 (Some terminal) 0 0) st2
    = ["a-in"; "y-in"; "h@root"; "y-out"; "a-out"] /\
    events (end_and_serve C (Some terminal) 0 0) st2
    = ["a-in"; "h@root"; "a-out"].
Proof.
  eexists _, _, _, _, _.
  split; [vm_compute; reflexivity |].
  split; [vm_compute; reflexivity |].
  split; [vm_compute; reflexivity |].
  split; [vm_compute; reflexivity |].
  split; vm_compute; reflexivity.
Qed.

(** The same through the package's functions alone: three appends to an
    empty chain leave a slice of length 3 and capacity 4, and the two
    appends that follow share its fourth cell. *)
Example Append_siblings_share_storage_api :
  exists (C C2 C3 : Chain) (st1 st2 : GoState RW Req World),
    first_append_api st0 = (Some (C, C2), st1) /\
    (sl_len (m C), sl_cap (m C)) = (3, 4) /\
    events (end_and_serve C2 (Some terminal) 0 0) st1
    = ["a-in"; "b-in"; "c-in"; "x-in"; "h@root"; "x-out"; "c-out"; "b-out"; "a-out"] /\
    call_Append double_growth C [logging "y"] st1 = (Some C3, st2) /\
    events (end_and_serve C2 (Some terminal) 0 0) st2
    = ["a-in"; "b-in"; "c-in"; "y-in"; "h@root"; "y-out"; "c-out"; "b-out"; "a-out"].
Proof.
  eexists _, _, _, _, _.
  split; [vm_compute; reflexivity |].
  split; [vm_compute; reflexivity |].
  split; [vm_compute; reflexivity |].
  split; vm_compute; reflexivity.
Qed.

(** ** Instances of the further properties *)

Lemma PHFC_slot_survives_derivation_witness :
  Forall (fun d => rebinds postHandlerFuncCtxKey d = false)
    [withCancel 1; withValue (foreignKey 2) (foreignVal 3)] /\
  GetPHFC (derive (InitPHFC Background ∅).1
             [withCancel 1; withValue (foreignKey 2) (foreignVal 3)])
  = (Some (fresh (dom (∅ : ctxStore))), true) /\
  deref (InitPHFC Background ∅).2
    (GetPHFC (derive (InitPHFC Background ∅).1
                [withCancel 1; withValue (foreignKey 2) (foreignVal 3)])).1
  = Some Background.
Proof.
  assert (H : Forall (fun d => rebinds postHandlerFuncCtxKey d = false)
                [withCancel 1; withValue (foreignKey 2) (foreignVal 3)]).
  { repeat constructor. }
  split; [exact H |].
  exact (PHFC_slot_survives_derivation Background ∅ _ H).
Defined.

Lemma c_full_backed : slice_ok (heap st_app) (m c_full).
Proof.
  split; [simpl; lia |]. intros _.
  eexists. split; [vm_compute; reflexivity | simpl; lia].
Defined.

Lemma c_full_stores : stores (heap st_app) c_full [logging "a"; logging "b"].
Proof. split; vm_compute; reflexivity. Defined.

Lemma c_spare_backed : slice_ok (heap st_app) (m c_spare).
Proof.
  split; [simpl; lia |]. intros _.
  eexists. split; [vm_compute; reflexivity | simpl; lia].
Defined.

Lemma c_spare_stores : stores (heap st_app) c_spare [logging "a"].
Proof. split; vm_compute; reflexivity. Defined.

Lemma Append_extends_receiver_witness :
  slice_ok (heap st_app) (m c_full) /\
  stores (heap st_app) c_full [logging "a"; logging "b"] /\
  exists (c' : Chain) (st' : GoState RW Req World),
    Chain_Append double_growth c_full mw_x st_app = (Some c', st') /\
    ctx c' = ctx c_full /\
    world st' = world st_app /\
    stores (heap st') c' ([logging "a"; logging "b"] ++ elems (heap st_app) mw_x) /\
    stores (heap st') c_full [logging "a"; logging "b"] /\
    slice_ok (heap st') (m c') /\
    slice_ok (heap st') (m c_full).
Proof.
  split; [exact c_full_backed |]. split; [exact c_full_stores |].
  exact (Append_extends_receiver double_growth c_full mw_x st_app _
           c_full_backed c_full_stores).
Defined.

Lemma Append_frame_witness :
  (sl_len (m c_spare) = 0 \/ is_Some (heap st_app !! sl_arr (m c_spare))) /\
  (sl_arr (m c_spare) <> sl_arr (m c_full) \/
   sl_off (m c_spare) + sl_len (m c_spare) <= sl_off (m c_full) + sl_len (m c_full)) /\
  elems (heap (Chain_Append double_growth c_full mw_x st_app).2) (m c_spare)
  = elems (heap st_app) (m c_spare).
Proof.
  assert (H1 : sl_len (m c_spare) = 0 \/ is_Some (heap st_app !! sl_arr (m c_spare))).
  { right. eexists. vm_compute. reflexivity. }
  assert (H2 : sl_arr (m c_spare) <> sl_arr (m c_full) \/
               sl_off (m c_spare) + sl_len (m c_spare)
               <= sl_off (m c_full) + sl_len (m c_full)).
  { left. simpl. lia. }
  split; [exact H1 |]. split; [exact H2 |].
  exact (Append_frame double_growth c_full mw_x st_app (m c_spare) H1 H2).
Defined.

Lemma Chain_Append_overwrites_witness :
  slice_ok (heap st_app) (m c_spare) /\
  stores (heap st_app) c_spare [logging "a"] /\
  0 < length (elems (heap st_app) mw_x) /\
  sl_len (m c_spare) + length (elems (heap st_app) mw_x) <= sl_cap (m c_spare) /\
  stores
    (heap (Chain_Append double_growth c_spare mw_y
             (Chain_Append double_growth c_spare mw_x st_app).2).2)
    {| ctx := Background; m := Slice 2 0 2 2 |}
    ([logging "a"]
     ++ elems (heap (Chain_Append double_growth c_spare mw_x st_app).2) mw_y).
Proof.
  assert (Hpos : 0 < length (elems (heap st_app) mw_x)).
  { vm_compute. lia. }
  assert (Hfit : sl_len (m c_spare) + length (elems (heap st_app) mw_x)
                 <= sl_cap (m c_spare)).
  { vm_compute. lia. }
  assert (Hsame : length (elems (heap (Chain_Append double_growth c_spare mw_x
                                         st_app).2) mw_y)
                  = length (elems (heap st_app) mw_x)).
  { vm_compute. reflexivity. }
  assert (H1 : Chain_Append double_growth c_spare mw_x st_app
               = (Some {| ctx := Background; m := Slice 2 0 2 2 |},
                  (Chain_Append double_growth c_spare mw_x st_app).2)).
  { vm_compute. reflexivity. }
  assert (H2 : Chain_Append double_growth c_spare mw_y
                 (Chain_Append double_growth c_spare mw_x st_app).2
               = (Some {| ctx := Background; m := Slice 2 0 2 2 |},
                  (Chain_Append double_growth c_spare mw_y
                     (Chain_Append double_growth c_spare mw_x st_app).2).2)).
  { vm_compute. reflexivity. }
  split; [exact c_spare_backed |]. split; [exact c_spare_stores |].
  split; [exact Hpos |]. split; [exact Hfit |].
  exact (Chain_Append_overwrites double_growth c_spare mw_x mw_y st_app _ _ _ _ _
           c_spare_backed c_spare_stores Hpos Hfit Hsame H1 H2).
Defined.

Lemma Append_grown_is_independent_witness :
  slice_ok (heap st_app) (m c_full) /\
  stores (heap st_app) c_full [logging "a"; logging "b"] /\
  sl_cap (m c_full) < sl_len (m c_full) + length (elems (heap st_app) mw_x) /\
  stores
    (heap (Chain_Append double_growth c_full mw_y
             (Chain_Append double_growth c_full mw_x st_app).2).2)
    {| ctx := Background; m := Slice 5 0 3 4 |}
    ([logging "a"; logging "b"] ++ elems (heap st_app) mw_x).
Proof.
  assert (Hgrow : sl_cap (m c_full)
                  < sl_len (m c_full) + length (elems (heap st_app) mw_x)).
  { vm_compute. lia. }
  assert (H1 : Chain_Append double_growth c_full mw_x st_app
               = (Some {| ctx := Background; m := Slice 5 0 3 4 |},
                  (Chain_Append double_growth c_full mw_x st_app).2)).
  { vm_compute. reflexivity. }
  split; [exact c_full_backed |]. split; [exact c_full_stores |].
  split; [exact Hgrow |].
  exact (Append_grown_is_independent double_growth c_full mw_x mw_y st_app _ _ _
           c_full_backed c_full_stores Hgrow H1).
Defined.

Lemma Append_nothing_witness :
  sl_len (m c_full) <= sl_cap (m c_full) /\
  call_Append double_growth c_full [] st_app = (Some c_full, st_app).
Proof.
  assert (H : sl_len (m c_full) <= sl_cap (m c_full)) by (simpl; lia).
  split; [exact H |].
  exact (Append_nothing double_growth c_full st_app H).
Defined.

Lemma Append_twice_witness :
  slice_ok (heap st_app) (m c_full) /\
  stores (heap st_app) c_full [logging "a"; logging "b"] /\
  exists (c1 c2 : Chain) (st1 st2 : GoState RW Req World),
    call_Append double_growth c_full [logging "x"] st_app = (Some c1, st1) /\
    call_Append double_growth c1 [logging "y"] st1 = (Some c2, st2) /\
    ctx c2 = ctx c_full /\
    world st2 = world st_app /\
    stores (heap st2) c2
      ([logging "a"; logging "b"] ++ [logging "x"] ++ [logging "y"]) /\
    stores (heap st2) c1 ([logging "a"; logging "b"] ++ [logging "x"]).
Proof.
  split; [exact c_full_backed |]. split; [exact c_full_stores |].
  exact (Append_twice double_growth c_full [logging "x"] [logging "y"] st_app _
           c_full_backed c_full_stores).
Defined.

Lemma End_nil_iff_witness :
  Chain_End c_ab (Some terminal) st_ab
  = (Some (Some (handlerAdapter_ServeHTTP
                   {| ha_ctx := Background;
                      ha_h := Some (nest_layers [log_sides "a"; log_sides "b"]
                                      terminal) |})),
     st_ab) /\
  (Some (handlerAdapter_ServeHTTP
           {| ha_ctx := Background;
              ha_h := Some (nest_layers [log_sides "a"; log_sides "b"] terminal) |})
   = None
   <-> Some terminal = None).
Proof.
  assert (H : Chain_End c_ab (Some terminal) st_ab
              = (Some (Some (handlerAdapter_ServeHTTP
                               {| ha_ctx := Background;
                                  ha_h := Some (nest_layers
                                                  [log_sides "a"; log_sides "b"]
                                                  terminal) |})),
                 st_ab)).
  { vm_compute. reflexivity. }
  split; [exact H |].
  exact (End_nil_iff c_ab (Some terminal) st_ab _ _ H).
Defined.

Lemma End_panics_on_nil_wrap_witness :
  stores (heap st_nilwrap) c_nilwrap [nilWrap] /\
  nilWrap ∈ [@nilWrap RW Req World] /\
  (Chain_End c_nilwrap (Some terminal) st_nilwrap).1 = None /\
  heap (Chain_End c_nilwrap (Some terminal) st_nilwrap).2 = heap st_nilwrap.
Proof.
  assert (H : stores (heap st_nilwrap) c_nilwrap [nilWrap]).
  { split; vm_compute; reflexivity. }
  assert (Hin : nilWrap ∈ [@nilWrap RW Req World]) by constructor.
  split; [exact H |]. split; [exact Hin |].
  exact (End_panics_on_nil_wrap c_nilwrap _ terminal st_nilwrap H Hin).
Defined.

Lemma End_typed_nil_handler_witness :
  stores (heap st_ab) c_ab (map layer [log_sides "a"; log_sides "b"]) /\
  (exists serve : serveFn RW Req World,
     Chain_End c_ab (asHandler None) st_ab = (Some (Some serve), st_ab) /\
     (forall w r (s : World), (serve w r s).1 = None) /\
     (forall w r,
        serve w r
        =m= (sequence_ (map (fun p => p.1 (ctx c_ab) w r)
                            [log_sides "a"; log_sides "b"]) ;; panic))) /\
  Chain_EndFn c_ab None st_ab = (Some None, st_ab).
Proof.
  assert (H : stores (heap st_ab) c_ab (map layer [log_sides "a"; log_sides "b"])).
  { split; vm_compute; reflexivity. }
  split; [exact H |].
  exact (End_typed_nil_handler c_ab _ st_ab H).
Defined.

(** The trace of one request served through [a; b] around the nil
    HandlerFunc: both entry sides, then the panic. *)
Example End_typed_nil_events :
  (end_and_serve c_ab (asHandler None) 0 0 st_ab).1 = None /\
  events (end_and_serve c_ab (asHandler None) 0 0) st_ab = ["a-in"; "b-in"].
Proof. split; vm_compute; reflexivity. Qed.

Lemma End_applies_effects_in_reverse_witness :
  stores (heap st_announce) c_ab
    (map effectful_wrap [announcing "a"; announcing "b"]) /\
  Chain_End c_ab (Some terminal) st_announce
  = lift_world
      (sequence_ (rev (map fst [announcing "a"; announcing "b"])) ;;
       ret (Some (handlerAdapter_ServeHTTP
                    {| ha_ctx := ctx c_ab;
                       ha_h := foldr (fun eg acc => eg.2 acc) (Some terminal)
                                 [announcing "a"; announcing "b"] |})))
      st_announce.
Proof.
  assert (H : stores (heap st_announce) c_ab
                (map effectful_wrap [announcing "a"; announcing "b"])).
  { split; vm_compute; reflexivity. }
  split; [exact H |].
  exact (End_applies_effects_in_reverse c_ab _ terminal st_announce H).
Defined.

(** The wraps [a; b] are applied b first: the trace End leaves. *)
Example End_announce_order :
  events (Chain_End c_ab (Some terminal)) st_announce = ["b-applied"; "a-applied"].
Proof. vm_compute. reflexivity. Qed.

Lemma Bridge_passes_entry_context_witness :
  stores (heap st_mixed) c_ab
    (with_context child :: map Bridge (map http_layer [http_log_sides "x"])) /\
  exists serve : serveFn RW Req World,
    Chain_End c_ab (Some terminal) st_mixed = (Some (Some serve), st_mixed) /\
    forall w r,
      serve w r
      =m= (sequence_ (map (fun p => p.1 w r) [http_log_sides "x"]) ;;
           terminal (child (ctx c_ab)) w r ;;
           sequence_ (rev (map (fun p => p.2 w r) [http_log_sides "x"]))).
Proof.
  assert (H : stores (heap st_mixed) c_ab
                (with_context child
                 :: map Bridge (map http_layer [http_log_sides "x"]))).
  { split; vm_compute; reflexivity. }
  split; [exact H |].
  exact (Bridge_passes_entry_context c_ab child _ terminal st_mixed H).
Defined.

(** The terminal handler behind the bridged wrap sees the child context
    that the first wrap made. *)
Example Bridge_mixed_events :
  events (end_and_serve c_ab (Some terminal) 0 0) st_mixed
  = ["x-in"; "h@derived"; "x-out"].
Proof. vm_compute. reflexivity. Qed.
